(** * awaits: the [shoot] decorator, the thread unit loop and the room model

    A shallow embedding of

    - [awaits/shoot.py]                   (module [Shoot]),
    - [awaits/utils/end_of_wrappers.py]   (module [EndOfWrappers]),
    - [awaits/units/thread_unit.py]       (module [ThreadUnit]),

    together with the parts of the package those files call and that lie
    outside them ([awaits.room_keeper], the room and the task); these are
    written down from the design document and are marked
    [Modelled from the spec].

    Python procedures are embedded in a state-and-exception monad over the
    process state [System]; objects that are shared by reference (tasks,
    queues) live in that state and are named by references. *)

From stdpp Require Import gmap strings list fin_maps.

Open Scope string_scope.
Open Scope list_scope.

(** ** Python values and exceptions *)

Module Py.

(** Functions are named; what a name denotes is given by a [FunEnv]. *)
Definition funid := string.

Inductive value :=
| VNone
| VBool (b : bool)
| VInt (z : Z)
| VStr (s : string)
| VFun (f : funid).

(** [callable(v)] *)
Definition callable (v : value) : bool :=
  match v with
  | VFun _ => true
  | _ => false
  end.

(** An instance of [Exception]: its class and its message. *)
Record error := Error { exc_class : string; exc_msg : string }.

(** Instances of [BaseException] that are not instances of [Exception];
    an [except Exception] clause does not catch them. *)
Inductive exit_signal := SystemExit | KeyboardInterrupt | GeneratorExit.

Inductive raised :=
| Err (e : error)
| Exit (x : exit_signal).

(** What a call of a function of the client program does: functions are
    taken to be deterministic in their arguments. *)
Inductive outcome :=
| Returns (v : value)
| Raises (e : error).

Class FunEnv := call : funid -> list value -> gmap string value -> outcome.

Definition TypeError_not_callable : error :=
  Error "TypeError" "object is not callable".

(** Calling an arbitrary value [f] on positional and keyword arguments;
    a value that is not callable raises [TypeError]. *)
Definition py_call `{FunEnv} (f : value) (args : list value)
    (kwargs : gmap string value) : outcome :=
  match f with
  | VFun n => call n args kwargs
  | _ => Raises TypeError_not_callable
  end.

(** [args[i]] on a tuple; every use tests [len(args)] first, so the index
    is in range where the value matters. *)
Definition item (args : list value) (i : nat) : value :=
  default VNone (args !! i).

(** Result of a procedure that may raise an [Exception]. *)
Inductive res (A : Type) :=
| Ok (a : A)
| Raise (e : error).
Arguments Ok {A} a.
Arguments Raise {A} e.

(** Procedures over a state [S]. *)
Definition M (S A : Type) : Type := S -> res A * S.

Definition ret {S A} (a : A) : M S A := fun s => (Ok a, s).

Definition raise {S A} (e : error) : M S A := fun s => (Raise e, s).

Definition bind {S A B} (m : M S A) (k : A -> M S B) : M S B :=
  fun s =>
    match m s with
    | (Ok a, s') => k a s'
    | (Raise e, s') => (Raise e, s')
    end.

End Py.
Import Py.

Notation "x <- m ;; k" := (bind m (fun x => k))
  (at level 100, m at next level, right associativity).

(** ** awaits.errors *)

Module Errors.

(** The class [IncorrectUseOfTheDecoratorError] of [awaits.errors]. *)
Definition IncorrectUseOfTheDecoratorError (msg : string) : error :=
  Error "IncorrectUseOfTheDecoratorError" msg.

(** The message both call sites pass. *)
Definition misuse_message : string :=
  "You used the awaitable decorator incorrectly. Read the documentation.".

End Errors.

(** ** awaits/utils/end_of_wrappers.py *)

Module EndOfWrappers.
Import Errors.

(** What a decorator entry point hands back: the wrapper itself (the
    decorator was called as a factory) or the wrapper applied to the
    decorated function. *)
Inductive dispatched (W R : Type) :=
| AsFactory (w : W)
| AsDecorator (r : R).
Arguments AsFactory {W R} w.
Arguments AsDecorator {W R} r.

Section Generic.
Context {S W R : Type}.
(** [wrapper(x)]: the Python call of a wrapper on one argument. *)
Variable apply : W -> value -> M S R.

Definition end_of_wrappers (args : list value) (wrapper : W)
    : M S (dispatched W R) :=
  if Nat.eqb (length args) 0 then
    ret (AsFactory wrapper)
  else if Nat.eqb (length args) 1 && callable (item args 0) then
    r <- apply wrapper (item args 0) ;;
    ret (AsDecorator r)
  else raise (IncorrectUseOfTheDecoratorError misuse_message).

End Generic.

End EndOfWrappers.

(** ** The process state: rooms, queues and tasks *)

Module State.

(** A reference to a [Task] object. *)
Definition ref := nat.

(** Modelled from the spec: the Task of sections 3 and 4.1, whose class
    is defined outside the embedded files: the target callable, its
    positional and keyword arguments, the completion flag and the slot that
    holds either the result or the captured failure. *)
Record Task := mkTask {
  target : value;
  args : list value;
  kwargs : gmap string value;
  completed : bool;
  slot : option outcome
}.

(** The [queue.Queue] of the standard library, as far as the thread unit
    uses it: the pending items in arrival order and the counter behind
    [task_done]. *)
Record Queue := mkQueue {
  items : list ref;
  unfinished_tasks : nat
}.

(** Modelled from the spec: the Room of section 3, one queue and a pool of
    workers whose size is fixed when the room is created. [room_id] tells
    room objects apart. *)
Record Room := mkRoom {
  room_id : nat;
  queue : Queue;
  workers : nat
}.

(** [awaits.units.thread_unit.ThreadUnit]: the attributes [__init__]
    stores. Queues and pools are shared objects; they are named by the room
    they belong to. *)
Record ThreadUnit := mkUnit {
  unit_index : nat;
  unit_queue : string;
  unit_pool : string
}.

#[global] Instance ThreadUnit_eq_dec : EqDecision ThreadUnit.
Proof. solve_decision. Defined.

(** Observable events, in the order they happen. *)
Inductive event :=
| EvRoomCreated (name : string) (id : nat)
| EvSubmitted (name : string) (id : nat) (t : ref)
| EvGet (u : ThreadUnit) (t : ref)
| EvStarted (u : ThreadUnit) (t : ref)
| EvTaskDone (u : ThreadUnit).

#[global] Instance event_eq_dec : EqDecision event.
Proof. solve_decision. Defined.

Record System := mkSystem {
  rooms : gmap string Room;
  tasks : gmap ref Task;
  next_ref : ref;
  next_room : nat;
  pool_size : nat;
  log : list event
}.

Definition set_rooms (f : gmap string Room -> gmap string Room) (s : System)
    : System :=
  mkSystem (f (rooms s)) (tasks s) (next_ref s) (next_room s) (pool_size s)
    (log s).

Definition set_tasks (f : gmap ref Task -> gmap ref Task) (s : System)
    : System :=
  mkSystem (rooms s) (f (tasks s)) (next_ref s) (next_room s) (pool_size s)
    (log s).

Definition emit (e : event) (s : System) : System :=
  mkSystem (rooms s) (tasks s) (next_ref s) (next_room s) (pool_size s)
    (log s ++ [e]).

(** A process that has created no room and no task yet. *)
Definition boot (size : nat) : System :=
  mkSystem ∅ ∅ 0 0 size [].

(** *** queue.Queue *)

(** [Queue.put(x)] *)
Definition put (x : ref) (q : Queue) : Queue :=
  mkQueue (items q ++ [x]) (S (unfinished_tasks q)).

(** [Queue.get()]: [None] stands for a caller that stays blocked because
    the queue is empty. *)
Definition get (q : Queue) : option (ref * Queue) :=
  match items q with
  | [] => None
  | x :: rest => Some (x, mkQueue rest (unfinished_tasks q))
  end.

Definition ValueError_task_done : error :=
  Error "ValueError" "task_done() called too many times".

(** [Queue.task_done()] *)
Definition task_done (q : Queue) : res Queue :=
  match unfinished_tasks q with
  | 0 => Raise ValueError_task_done
  | S n => Ok (mkQueue (items q) n)
  end.

(** [u] is one of the workers of the room whose queue it serves. *)
Definition unit_of_room (u : ThreadUnit) (s : System) : Prop :=
  exists r, rooms s !! unit_queue u = Some r /\ unit_index u < workers r.

(** The pending items of the queue of room [name]. *)
Definition pending (name : string) (s : System) : list ref :=
  match rooms s !! name with
  | Some r => items (queue r)
  | None => []
  end.

(** *** Task *)

(** Modelled from the spec: [create(callable, args, kwargs)] of section 4.1,
    which always succeeds and starts in the not-completed state. *)
Definition create (f : value) (a : list value) (k : gmap string value)
    : Task :=
  mkTask f a k false None.

(** Modelled from the spec: [run()] of section 4.1 on the task object: call
    the target with the stored arguments, store the value or capture the
    error, mark the task completed. *)
Definition run_task `{FunEnv} (t : Task) : Task :=
  match py_call (target t) (args t) (kwargs t) with
  | Returns v => mkTask (target t) (args t) (kwargs t) true (Some (Returns v))
  | Raises e => mkTask (target t) (args t) (kwargs t) true (Some (Raises e))
  end.

Inductive do_outcome :=
| DoReturned
| DoRaised (r : raised).

(** Modelled from the spec: the method the thread unit calls on a dequeued
    task ([task.do()] in the source, [Task.run()] in section 4.1): the
    task object behind the reference is run in place. The error of the
    target is captured, so the call itself returns. *)
Definition Task_do `{FunEnv} (h : ref) (s : System) : do_outcome * System :=
  (DoReturned, set_tasks (alter run_task h) s).

(** What the awaiting side sees. *)
Inductive awaited :=
| Pending
| Ready (o : outcome).

(** Modelled from the spec: [await_result()] of section 4.1: wait until the
    task is completed, then yield the stored result or re-raise the stored
    failure. [Pending] stands for a reader that is still waiting. *)
Definition await_result (h : ref) (s : System) : awaited * System :=
  match tasks s !! h with
  | Some t =>
      if completed t then
        match slot t with
        | Some o => (Ready o, s)
        | None => (Pending, s)
        end
      else (Pending, s)
  | None => (Pending, s)
  end.

(** [n] reads of the outcome, one after the other. *)
Fixpoint await_times (n : nat) (h : ref) (s : System) : list awaited * System :=
  match n with
  | 0 => ([], s)
  | S n' =>
      let '(r, s1) := await_result h s in
      let '(rs, s2) := await_times n' h s1 in
      (r :: rs, s2)
  end.

(** The task behind [h] has been completed. *)
Definition is_completed (h : ref) (s : System) : Prop :=
  exists t, tasks s !! h = Some t /\ completed t = true.

(** *** Room and Room Keeper *)

Definition default_room : string := "base".

(** Modelled from the spec: [get_room(name_or_default)] of section 4.4: an
    absent name resolves to ["base"]; a room that does not exist yet is
    created with the configured worker count and registered, otherwise the
    registered room is returned. The room is returned by its name. *)
Definition get_room (name : option string) : M System string :=
  fun s =>
    let n := default default_room name in
    match rooms s !! n with
    | Some _ => (Ok n, s)
    | None =>
        let r := mkRoom (next_room s) (mkQueue [] 0) (pool_size s) in
        (Ok n,
         emit (EvRoomCreated n (next_room s))
           (mkSystem (<[n := r]> (rooms s)) (tasks s) (next_ref s)
              (S (next_room s)) (pool_size s) (log s)))
    end.

Definition KeyError (k : string) : error := Error "KeyError" k.

(** Modelled from the spec: [submit(callable, args, kwargs)] of section 4.2
    ([Room.do] in the source): construct a task, append it to the tail of
    the queue, return the task at once. *)
Definition Room_do (name : string) (f : value) (a : list value)
    (k : gmap string value) : M System ref :=
  fun s =>
    match rooms s !! name with
    | Some r =>
        let h := next_ref s in
        let r' := mkRoom (room_id r) (put h (queue r)) (workers r) in
        (Ok h,
         emit (EvSubmitted name (room_id r) h)
           (mkSystem (<[name := r']> (rooms s)) (<[h := create f a k]> (tasks s))
              (S h) (next_room s) (pool_size s) (log s)))
    | None => (Raise (KeyError name), s)
    end.

(** The room a submission to [n] ends up in: the registered one, or a new
    one when the name is not registered yet. *)
Definition resolved (n : string) (s : System) : Room :=
  match rooms s !! n with
  | Some r => r
  | None => mkRoom (next_room s) (mkQueue [] 0) (pool_size s)
  end.

End State.
Import State.

(** ** awaits/units/thread_unit.py *)

Module Unit.

Section Run.
(** [task.do()] for the objects found in the queue. The loop is written
    for any such method, also one that lets an exception escape. *)
Variable do : ref -> System -> do_outcome * System.

(** [task = self.queue.get()] *)
Definition queue_get (u : ThreadUnit) (s : System) : option (ref * System) :=
  match rooms s !! unit_queue u with
  | Some r =>
      match get (queue r) with
      | Some (task, q) =>
          Some (task,
                emit (EvGet u task)
                  (set_rooms
                     <[unit_queue u := mkRoom (room_id r) q (workers r)]> s))
      | None => None
      end
  | None => None
  end.

(** [self.queue.task_done()] *)
Definition queue_task_done (u : ThreadUnit) : M System unit :=
  fun s =>
    let s := emit (EvTaskDone u) s in
    match rooms s !! unit_queue u with
    | Some r =>
        match task_done (queue r) with
        | Ok q =>
            (Ok tt,
             set_rooms <[unit_queue u := mkRoom (room_id r) q (workers r)]> s)
        | Raise e => (Raise e, s)
        end
    | None => (Ok tt, s)
    end.

(** How one pass through the body of [while True] ends: the loop goes on,
    the unit stays blocked in [get], or an exception that is not an
    [Exception] leaves the loop. *)
Inductive iteration :=
| Continue
| Blocked
| Killed (x : exit_signal).

(** The rest of the [try] block once [get] has returned [task]:
    [task.do()], then [self.queue.task_done()], under
    [except Exception as e: pass]. *)
Definition execute (u : ThreadUnit) (task : ref) (s : System)
    : iteration * System :=
  match do task (emit (EvStarted u task) s) with
  | (DoReturned, s1) =>
      match queue_task_done u s1 with
      | (Ok _, s2) => (Continue, s2)
      | (Raise e, s2) => (Continue, s2)
      end
  | (DoRaised (Err e), s1) => (Continue, s1)
  | (DoRaised (Exit x), s1) => (Killed x, s1)
  end.

(** The body of [while True]. *)
Definition loop_body (u : ThreadUnit) (s : System) : iteration * System :=
  match queue_get u s with
  | Some (task, s1) => execute u task s1
  | None => (Blocked, s)
  end.

(** Where [run] stands after a number of passes. *)
Inductive standing :=
| Looping
| Waiting
| Died (x : exit_signal).

(** [ThreadUnit.run]: [fuel] bounds the number of passes that are
    followed. *)
Fixpoint run (fuel : nat) (u : ThreadUnit) (s : System) : standing * System :=
  match fuel with
  | 0 => (Looping, s)
  | S fuel' =>
      match loop_body u s with
      | (Continue, s') => run fuel' u s'
      | (Blocked, s') => (Waiting, s')
      | (Killed x, s') => (Died x, s')
      end
  end.

End Run.

End Unit.

(** ** awaits/shoot.py *)

Module Shoot.
Import Errors EndOfWrappers.

(** The closure [wrapper_of_wrapper], which captures [room]. *)
Record decorator := Decorator { dec_room : option string }.

(** The closure [wrapper], which captures [room] and [func]. *)
Record wrapped := Wrapped { w_room : option string; w_func : value }.

(** [wrapper(...)], lines 11 to 14. The decoration with [wraps(func)]
    copies the name and the documentation of [func] and has no part in what
    a call does. *)
Definition wrapper (w : wrapped) (args : list value)
    (kwargs : gmap string value) : M System ref :=
  let room_name :=
    match w_room w with
    | None => "base"
    | Some room => room
    end in
  task <- (r <- get_room (Some room_name) ;;
           Room_do r (w_func w) args kwargs) ;;
  ret task.

(** [wrapper_of_wrapper(func)], lines 9 to 15. *)
Definition wrapper_of_wrapper (d : decorator) (func : value)
    : M System wrapped :=
  ret (Wrapped (dec_room d) func).

Section Inline.
Context {S W R : Type}.
Variable apply : W -> value -> M S R.

(** Lines 17 to 21 of [shoot], for the local function at hand. *)
Definition dispatch (args : list value) (wrapper_of_wrapper : W)
    : M S (dispatched W R) :=
  if Nat.eqb (length args) 0 then
    ret (AsFactory wrapper_of_wrapper)
  else if Nat.eqb (length args) 1 && callable (item args 0) then
    r <- apply wrapper_of_wrapper (item args 0) ;;
    ret (AsDecorator r)
  else raise (IncorrectUseOfTheDecoratorError misuse_message).

End Inline.

(** [shoot] on the positional arguments [args] and the keyword [room],
    which is [None] when the keyword is not given. *)
Definition shoot (args : list value) (room : option string)
    : M System (dispatched decorator wrapped) :=
  dispatch wrapper_of_wrapper args (Decorator room).

(** [w] is what decorating [func] for [room] produces in state [s], with
    [shoot] used directly on the function or as a factory first. *)
Definition decorates (room : option string) (func : value) (w : wrapped)
    (s : System) : Prop :=
  (room = None /\ shoot [func] None s = (Ok (AsDecorator w), s)) \/
  (exists d, shoot [] room s = (Ok (AsFactory d), s) /\
             wrapper_of_wrapper d func s = (Ok w, s)).

(** The positional arguments are not exactly one callable: there are
    several of them, or there is one and it is not callable. *)
Definition misuse (args : list value) : Prop :=
  2 <= length args \/ exists v, args = [v] /\ callable v = false.

(** The name of the room a wrapped function submits to (line 12). *)
Definition room_name (w : wrapped) : string :=
  match w_room w with
  | None => "base"
  | Some room => room
  end.

End Shoot.

(** ** Callers and thread units running side by side *)

Module Sched.
Import Unit Shoot.

(** What can happen next in the process: a caller invokes a wrapped
    function, a unit that stands at [get] takes the head of its queue, or a
    unit that holds a task goes through [task.do()] and
    [self.queue.task_done()]. Between its [get] and its [do] a unit can be
    overtaken by any other thread. *)
Inductive action :=
| Call (w : wrapped) (args : list value) (kwargs : gmap string value)
| Get (u : ThreadUnit)
| Exec (u : ThreadUnit).

(** Where a unit stands in its loop. *)
Inductive unit_state :=
| AtGet
| Holding (task : ref)
| Dead (x : exit_signal).

Record config := mkConfig {
  sys : System;
  units : ThreadUnit -> unit_state
}.

Definition set_unit (u : ThreadUnit) (st : unit_state)
    (f : ThreadUnit -> unit_state) : ThreadUnit -> unit_state :=
  fun u' => if decide (u' = u) then st else f u'.

Definition step `{FunEnv} (c : config) (a : action) : config :=
  match a with
  | Call w args kwargs =>
      mkConfig (snd (wrapper w args kwargs (sys c))) (units c)
  | Get u =>
      match units c u with
      | AtGet =>
          match queue_get u (sys c) with
          | Some (task, s') => mkConfig s' (set_unit u (Holding task) (units c))
          | None => c
          end
      | _ => c
      end
  | Exec u =>
      match units c u with
      | Holding task =>
          match execute Task_do u task (sys c) with
          | (Killed x, s') => mkConfig s' (set_unit u (Dead x) (units c))
          | (_, s') => mkConfig s' (set_unit u AtGet (units c))
          end
      | _ => c
      end
  end.

Definition exec `{FunEnv} (c : config) (sched : list action) : config :=
  fold_left step sched c.

(** A fresh process: nothing created, every unit at [get]. *)
Definition start (size : nat) : config :=
  mkConfig (boot size) (fun _ => AtGet).

(** The tasks submitted to the room called [name], in submission order. *)
Definition submitted (name : string) (l : list event) : list ref :=
  omap (fun e =>
          match e with
          | EvSubmitted n _ t => if decide (n = name) then Some t else None
          | _ => None
          end) l.

(** The tasks whose execution began on a unit of the queue of room [name],
    in the order in which they began. *)
Definition started (name : string) (l : list event) : list ref :=
  omap (fun e =>
          match e with
          | EvStarted u t =>
              if decide (unit_queue u = name) then Some t else None
          | _ => None
          end) l.

(** The number of [task_done] calls unit [u] has made. *)
Definition task_done_calls (u : ThreadUnit) (l : list event) : nat :=
  length (filter (fun e => e = EvTaskDone u) l).

(** [x] occurs before [y] in [l]. *)
Definition precedes (x y : ref) (l : list ref) : Prop :=
  exists l1 l2 l3 : list ref, l = (l1 ++ x :: l2 ++ y :: l3).

(** References are handed out in increasing order, and the slot of a
    completed task holds what its target does on its arguments. *)
Definition sound `{FunEnv} (s : System) : Prop :=
  forall h t,
    tasks s !! h = Some t ->
    h < next_ref s /\
    (completed t = true ->
     slot t = Some (py_call (target t) (args t) (kwargs t))).

(** The rooms created under the name [name], by identity, in creation
    order. *)
Definition created (name : string) (l : list event) : list nat :=
  omap (fun e =>
          match e with
          | EvRoomCreated n id => if decide (n = name) then Some id else None
          | _ => None
          end) l.

(** The identity of the room registered under [name], if there is one. *)
Definition registered (name : string) (s : System) : option nat :=
  room_id <$> rooms s !! name.

(** In a process that started fresh, the rooms created under a name are
    exactly the one registered under it: none before the first use, one
    ever after. *)
Definition one_room (n : string) (c : config) : Prop :=
  created n (log (sys c)) =
  match registered n (sys c) with
  | Some id => [id]
  | None => []
  end.

(** The task a unit has taken from its queue and not begun yet. *)
Definition held (st : unit_state) : list ref :=
  match st with
  | Holding task => [task]
  | _ => []
  end.

(** What holds of a queue with the single worker [u]: the submitted tasks
    are, in order, those that began, then the one the unit holds, then the
    pending ones; and no reference was handed out twice. *)
Definition in_order (u : ThreadUnit) (c : config) : Prop :=
  submitted (unit_queue u) (log (sys c)) =
    started (unit_queue u) (log (sys c)) ++ held (units c u) ++
    pending (unit_queue u) (sys c) /\
  (forall t, t ∈ submitted (unit_queue u) (log (sys c)) ->
             t < next_ref (sys c)) /\
  NoDup (submitted (unit_queue u) (log (sys c))).

(** Only unit [u] serves the queue of its room in [sched]. *)
Definition serves_alone (u : ThreadUnit) (a : action) : Prop :=
  match a with
  | Get u' | Exec u' => unit_queue u' = unit_queue u -> u' = u
  | Call _ _ _ => True
  end.

Definition only_worker (u : ThreadUnit) (sched : list action) : Prop :=
  Forall (serves_alone u) sched.

End Sched.

(** ** A small client program, used to run the definitions *)

Module Demo.

Definition boom : error := Error "ValueError" "boom".

(** [double(x)] returns [2 * x] on an integer; [fail()] raises; every other
    name denotes a function that returns [None]. *)
Definition env : FunEnv :=
  fun f args kwargs =>
    if String.eqb f "double" then
      match args with
      | [VInt z] => Returns (VInt (2 * z))
      | _ => Raises (Error "TypeError" "double() takes an int")
      end
    else if String.eqb f "fail" then Raises boom
    else Returns VNone.

(** A [do] that lets an error escape, as a task of another kind could. *)
Definition faulty_do (h : ref) (s : System) : do_outcome * System :=
  (DoRaised (Err boom), s).

Definition worker0 : ThreadUnit := mkUnit 0 "base" "base".
Definition worker1 : ThreadUnit := mkUnit 1 "base" "base".

Definition double : Shoot.wrapped := Shoot.Wrapped None (VFun "double").
Definition fail : Shoot.wrapped := Shoot.Wrapped None (VFun "fail").

(** A process with one room, one worker and one pending call of [fail]. *)
Definition one_pending : System :=
  snd (Shoot.wrapper fail [] ∅ (boot 1)).

(** The same process once [worker0] has taken the task from the queue. *)
Definition one_taken : System :=
  match Unit.queue_get worker0 one_pending with
  | Some (_, s1) => s1
  | None => one_pending
  end.

(** Two calls, then the only worker goes through both tasks. *)
Definition two_calls : list Sched.action :=
  [Sched.Call double [VInt 1] ∅; Sched.Call double [VInt 2] ∅;
   Sched.Get worker0; Sched.Exec worker0;
   Sched.Get worker0; Sched.Exec worker0].

(** Two calls, then two workers: the second takes its task after the
    first but begins it earlier. *)
Definition overtaking : list Sched.action :=
  [Sched.Call double [VInt 1] ∅; Sched.Call double [VInt 2] ∅;
   Sched.Get worker0; Sched.Get worker1;
   Sched.Exec worker1; Sched.Exec worker0].

End Demo.

(** ** awaits/units/process_unit.py *)

Module ProcUnit.
Import Unit.

(** [awaits.units.process_unit.ProcessUnit]: the attributes [__init__]
    stores. The queue is named by the room it belongs to. *)
Record ProcessUnit := mkProcessUnit {
  proc_index : nat;
  proc_queue : string
}.

(** The process state together with what has been printed so far. *)
Definition World : Type := System * list ref.

(** [queue.Empty] *)
Definition Empty : error := Error "Empty" "".

(** [Queue.get_nowait()]: an empty queue raises [Empty] instead of blocking
    the caller. *)
Definition get_nowait (q : Queue) : res (ref * Queue) :=
  match items q with
  | [] => Raise Empty
  | x :: rest => Ok (x, mkQueue rest (unfinished_tasks q))
  end.

(** [subtask = self.queue.get_nowait()] *)
Definition queue_get_nowait (u : ProcessUnit) : M System ref :=
  fun s =>
    match rooms s !! proc_queue u with
    | Some r =>
        match get_nowait (queue r) with
        | Ok (subtask, q) =>
            (Ok subtask,
             set_rooms
               <[proc_queue u := mkRoom (room_id r) q (workers r)]> s)
        | Raise e => (Raise e, s)
        end
    | None => (Raise Empty, s)
    end.

(** [print(subtask)] *)
Definition print (subtask : ref) (out : list ref) : list ref :=
  out ++ [subtask].

(** The body of [while True]: [get_nowait], then [print], under
    [except Exception as e: pass]. Nothing in it blocks and nothing in it
    lets an exception out. *)
Definition loop_body (u : ProcessUnit) (w : World) : iteration * World :=
  match queue_get_nowait u (fst w) with
  | (Ok subtask, s1) => (Continue, (s1, print subtask (snd w)))
  | (Raise e, s1) => (Continue, (s1, snd w))
  end.

(** [ProcessUnit.run]: [fuel] bounds the number of passes that are
    followed. *)
Fixpoint run (fuel : nat) (u : ProcessUnit) (w : World) : standing * World :=
  match fuel with
  | 0 => (Looping, w)
  | S fuel' =>
      match loop_body u w with
      | (Continue, w') => run fuel' u w'
      | (Blocked, w') => (Waiting, w')
      | (Killed x, w') => (Died x, w')
      end
  end.

End ProcUnit.

(** ** Notions used to state what the decorator and the units do *)

Module Facts.
Import Unit Shoot EndOfWrappers.

(** The positional arguments are exactly one callable. *)
Definition single_callable (args : list value) : bool :=
  match args with
  | [v] => callable v
  | _ => false
  end.

(** A wrapper that counts, next to the state, how often it is applied. *)
Definition counted {S W R : Type} (apply : W -> value -> M S R)
    : W -> value -> M (S * nat) R :=
  fun w v sn =>
    match apply w v (fst sn) with
    | (r, s') => (r, (s', Datatypes.S (snd sn)))
    end.

(** Decorating [func] through the factory: [shoot(room=room)(func)]. *)
Definition decorate_via_factory (room : option string) (func : value)
    : M System (dispatched decorator wrapped) :=
  d <- shoot [] room ;;
  match d with
  | AsFactory dec => w <- wrapper_of_wrapper dec func ;; ret (AsDecorator w)
  | AsDecorator w => ret (AsDecorator w)
  end.

(** [do] leaves the rooms and the log alone: it works on the task only. *)
Definition quiet (do : ref -> System -> do_outcome * System) : Prop :=
  forall t s, rooms (snd (do t s)) = rooms s /\ log (snd (do t s)) = log s.

(** [do] lets nothing but instances of [Exception] escape. *)
Definition survivable (do : ref -> System -> do_outcome * System) : Prop :=
  forall t s x, fst (do t s) <> DoRaised (Exit x).

(** The counter behind [task_done] of the queue of room [name]. *)
Definition unfinished (name : string) (s : System) : nat :=
  match rooms s !! name with
  | Some r => unfinished_tasks (queue r)
  | None => 0
  end.

(** The counter behind [task_done] agrees with the work that is left on
    the queue of [u]: the pending tasks and the one [u] holds. *)
Definition balanced (u : ThreadUnit) (c : Sched.config) : Prop :=
  unfinished (unit_queue u) (Sched.sys c) =
  length (pending (unit_queue u) (Sched.sys c)) +
  length (Sched.held (Sched.units c u)).

End Facts.

(** ** More of the small client program *)

Module Samples.

(** A [do] that ends with [SystemExit], as a task that calls [sys.exit]
    would. *)
Definition exiting_do (h : ref) (s : System) : do_outcome * System :=
  (DoRaised (Exit SystemExit), s).

Definition proc0 : ProcUnit.ProcessUnit := ProcUnit.mkProcessUnit 0 "base".

(** A process with one room and two pending calls. *)
Definition two_pending : System :=
  snd (Shoot.wrapper Demo.double [VInt 2] ∅ Demo.one_pending).

End Samples.

(** * Properties *)

Import Errors EndOfWrappers Unit Shoot Sched.

(** ** The decorator entry point *)

Section DispatchFacts.
Context {S W R : Type}.
Variable apply : W -> value -> M S R.

Lemma dispatch_no_args (wow : W) (s : S) :
  dispatch apply [] wow s = (Ok (AsFactory wow), s).
Proof. reflexivity. Qed.

Lemma dispatch_one_callable (f : funid) (wow : W) (s : S) :
  dispatch apply [VFun f] wow s =
  (r <- apply wow (VFun f) ;; ret (AsDecorator r)) s.
Proof. reflexivity. Qed.

Lemma dispatch_misuse (args : list value) (wow : W) (s : S) :
  misuse args ->
  dispatch apply args wow s =
  (Raise (IncorrectUseOfTheDecoratorError misuse_message), s).
Proof.
  intros [Hlen | (v & -> & Hv)].
  - destruct args as [|a0 [|a1 rest]]; simpl in Hlen; try lia.
    reflexivity.
  - unfold dispatch, item. simpl. rewrite Hv. reflexivity.
Qed.

End DispatchFacts.

(** C9. The dispatch written out at the end of [shoot] and the helper
    [end_of_wrappers] agree on every argument tuple and every wrapper, in
    the value they return, in the error they raise and in the state they
    leave; in particular [shoot] itself is [end_of_wrappers] applied to its
    local [wrapper_of_wrapper]. *)
Theorem shoot_dispatch_is_end_of_wrappers :
  (forall (S W R : Type) (apply : W -> value -> M S R) (args : list value)
          (wrapper : W) (s : S),
      dispatch apply args wrapper s = end_of_wrappers apply args wrapper s) /\
  (forall (args : list value) (room : option string) (s : System),
      shoot args room s =
      end_of_wrappers wrapper_of_wrapper args (Decorator room) s).
Proof.
  split.
  - intros S W R apply args wrapper s.
    unfold dispatch, end_of_wrappers.
    destruct (Nat.eqb (length args) 0); [reflexivity|].
    destruct (Nat.eqb (length args) 1 && callable (item args 0));
      reflexivity.
  - intros args room s. unfold shoot, dispatch, end_of_wrappers.
    destruct (Nat.eqb (length args) 0); [reflexivity|].
    destruct (Nat.eqb (length args) 1 && callable (item args 0));
      reflexivity.
Qed.

(** C2. When the positional arguments of [shoot] are not exactly one
    callable, [shoot] raises [IncorrectUseOfTheDecoratorError] at once and
    leaves the process state as it found it: no room has been resolved or
    created, no task has been created, nothing has been logged. The helper
    [end_of_wrappers] does the same on such arguments, whatever the wrapper,
    which is never applied. *)
Theorem shoot_misuse_fails_fast (args : list value) (room : option string)
    (s : System) :
  misuse args ->
  shoot args room s =
    (Raise (IncorrectUseOfTheDecoratorError misuse_message), s) /\
  (forall (S W R : Type) (apply : W -> value -> M S R) (wrapper : W) (s' : S),
      end_of_wrappers apply args wrapper s' =
      (Raise (IncorrectUseOfTheDecoratorError misuse_message), s')).
Proof.
  intros Hm. split.
  - unfold shoot. apply dispatch_misuse. exact Hm.
  - intros S W R apply wrapper s'.
    exact (dispatch_misuse apply args wrapper s' Hm).
Qed.

Lemma shoot_misuse_fails_fast_witness :
  misuse [VInt 1; VInt 2] /\
  shoot [VInt 1; VInt 2] None (boot 1) =
  (Raise (IncorrectUseOfTheDecoratorError misuse_message), boot 1).
Proof.
  assert (Hm : misuse [VInt 1; VInt 2]) by (left; simpl; lia).
  split; [exact Hm|].
  apply (proj1 (shoot_misuse_fails_fast [VInt 1; VInt 2] None (boot 1) Hm)).
Defined.

(** ** Submitting through the wrapper *)

Lemma decorates_inv (room : option string) (func : value) (w : wrapped)
    (s : System) :
  decorates room func w s -> w = Wrapped room func.
Proof.
  intros [[-> Hs] | (d & Hf & Hw)].
  - unfold shoot, dispatch in Hs. simpl in Hs.
    destruct (callable (item [func] 0)) eqn:Hc; simpl in Hs.
    + unfold bind, wrapper_of_wrapper, ret in Hs; simpl in Hs.
      unfold item in Hs; simpl in Hs. congruence.
    + unfold raise in Hs. congruence.
  - unfold shoot in Hf. rewrite dispatch_no_args in Hf.
    assert (d = Decorator room) as -> by congruence.
    unfold wrapper_of_wrapper, ret in Hw. simpl in Hw. congruence.
Qed.

Lemma decorates_factory (room : option string) (func : value) (s : System) :
  decorates room func (Wrapped room func) s.
Proof.
  right. exists (Decorator room). split; reflexivity.
Qed.

Lemma decorates_bare (f : funid) (s : System) :
  decorates None (VFun f) (Wrapped None (VFun f)) s.
Proof. left. split; reflexivity. Qed.

Lemma get_room_present (n : string) (r : Room) (s : System) :
  rooms s !! n = Some r -> get_room (Some n) s = (Ok n, s).
Proof. intros H. unfold get_room. simpl. rewrite H. reflexivity. Qed.

Lemma get_room_absent (n : string) (s : System) :
  rooms s !! n = None ->
  get_room (Some n) s =
  (Ok n,
   mkSystem (<[n := mkRoom (next_room s) (mkQueue [] 0) (pool_size s)]> (rooms s))
     (tasks s) (next_ref s) (S (next_room s)) (pool_size s)
     (log s ++ [EvRoomCreated n (next_room s)])).
Proof. intros H. unfold get_room. simpl. rewrite H. reflexivity. Qed.

Lemma wrapper_effect (w : wrapped) (a : list value) (k : gmap string value)
    (s : System) :
  let n := room_name w in
  let h := next_ref s in
  let r := resolved n s in
  exists s1,
    wrapper w a k s = (Ok h, s1) /\
    rooms s1 = <[n := mkRoom (room_id r) (put h (queue r)) (workers r)]> (rooms s) /\
    tasks s1 = <[h := create (w_func w) a k]> (tasks s) /\
    next_ref s1 = S h /\
    pool_size s1 = pool_size s /\
    log s1 =
      (log s ++
       match rooms s !! n with
       | Some _ => []
       | None => [EvRoomCreated n (next_room s)]
       end ++
       [EvSubmitted n (room_id r) h]) /\
    next_room s1 =
      match rooms s !! n with
      | Some _ => next_room s
      | None => S (next_room s)
      end.
Proof.
  intros n h r. unfold wrapper. fold (room_name w). fold n.
  unfold bind, ret, r, resolved. destruct (rooms s !! n) as [r0|] eqn:Hr.
  - rewrite (get_room_present n r0 s Hr). unfold Room_do. rewrite Hr.
    eexists. split; [reflexivity|]. simpl.
    repeat split; reflexivity.
  - rewrite (get_room_absent n s Hr). unfold Room_do. simpl.
    rewrite lookup_insert_eq. eexists. split; [reflexivity|]. simpl.
    rewrite insert_insert_eq. rewrite <- app_assoc.
    repeat split; reflexivity.
Qed.

Lemma pending_resolved (n : string) (s : System) :
  items (queue (resolved n s)) = pending n s.
Proof.
  unfold resolved, pending. destruct (rooms s !! n); reflexivity.
Qed.

Lemma wrapper_pending (w : wrapped) (a : list value) (k : gmap string value)
    (s s1 : System) (h : ref) :
  wrapper w a k s = (Ok h, s1) ->
  pending (room_name w) s1 = (pending (room_name w) s ++ [h]) /\
  (forall m, m <> room_name w -> pending m s1 = pending m s).
Proof.
  intros Hw. destruct (wrapper_effect w a k s) as (s1' & He & Hrooms & _).
  rewrite He in Hw. inversion Hw; subst. split.
  - unfold pending at 1. rewrite Hrooms, lookup_insert_eq. simpl.
    rewrite pending_resolved. reflexivity.
  - intros m Hm. unfold pending. rewrite Hrooms.
    rewrite lookup_insert_ne by congruence. reflexivity.
Qed.

(** Two wrapped functions with the same room name submit to the same room
    object: the second call finds the room the first one used. *)
Lemma same_name_same_room (w1 w2 : wrapped) (a b : list value)
    (ka kb : gmap string value) (s : System) :
  room_name w1 = room_name w2 ->
  let n := room_name w1 in
  exists h1 s1 h2 s2 id created,
    wrapper w1 a ka s = (Ok h1, s1) /\
    wrapper w2 b kb s1 = (Ok h2, s2) /\
    room_id <$> rooms s1 !! n = Some id /\
    room_id <$> rooms s2 !! n = Some id /\
    log s2 =
      (log s ++ created ++ [EvSubmitted n id h1; EvSubmitted n id h2]) /\
    (forall e, e ∈ created -> e = EvRoomCreated n id) /\
    pending n s2 = (pending n s ++ [h1; h2]).
Proof.
  intros Hn n.
  destruct (wrapper_effect w1 a ka s)
    as (s1 & Hw1 & Hrooms1 & _ & _ & _ & Hlog1 & _).
  destruct (wrapper_effect w2 b kb s1)
    as (s2 & Hw2 & Hrooms2 & _ & _ & _ & Hlog2 & _).
  rewrite <- Hn in Hrooms2, Hlog2. fold n in Hrooms1, Hlog1, Hrooms2, Hlog2.
  assert (Hres : resolved n s1 =
                 mkRoom (room_id (resolved n s))
                   (put (next_ref s) (queue (resolved n s)))
                   (workers (resolved n s))).
  { unfold resolved at 1.
    rewrite Hrooms1, lookup_insert_eq. reflexivity. }
  rewrite Hres in Hrooms2, Hlog2. simpl in Hrooms2, Hlog2.
  assert (Hin : rooms s1 !! n =
                Some (mkRoom (room_id (resolved n s))
                        (put (next_ref s) (queue (resolved n s)))
                        (workers (resolved n s)))).
  { rewrite Hrooms1, lookup_insert_eq. reflexivity. }
  rewrite Hin in Hlog2. simpl in Hlog2.
  exists (next_ref s), s1, (next_ref s1), s2, (room_id (resolved n s)),
    (match rooms s !! n with
     | Some _ => []
     | None => [EvRoomCreated n (next_room s)]
     end).
  split; [exact Hw1|]. split; [exact Hw2|].
  split; [rewrite Hin; reflexivity|].
  split; [rewrite Hrooms2, lookup_insert_eq; reflexivity|].
  split.
  { rewrite Hlog2, Hlog1. rewrite <- !app_assoc. reflexivity. }
  split.
  { unfold resolved. destruct (rooms s !! n); intros e He.
    - inversion He.
    - apply list_elem_of_singleton in He. subst e. reflexivity. }
  destruct (wrapper_pending w1 a ka s s1 _ Hw1) as [Hp1 _].
  destruct (wrapper_pending w2 b kb s1 s2 _ Hw2) as [Hp2 _].
  rewrite <- Hn in Hp2. fold n in Hp1, Hp2.
  rewrite Hp2, Hp1, <- app_assoc. reflexivity.
Qed.

(** C3. A function decorated with bare [shoot] has no room of its own and
    is routed to the room named ["base"], the one a function decorated for
    [room="base"] names: whichever of the two is called first, both tasks
    are submitted to one and the same room object (same [room_id]) and are
    queued, in call order, behind what that room had pending. *)
Theorem default_room_is_base (f : funid) (g : value) (w1 w2 : wrapped)
    (s0 : System) :
  decorates None (VFun f) w1 s0 ->
  decorates (Some "base") g w2 s0 ->
  room_name w1 = "base" /\
  room_name w2 = "base" /\
  (forall a ka s, wrapper w1 a ka s = wrapper (Wrapped (Some "base") (VFun f)) a ka s) /\
  (forall a ka b kb s,
      exists h1 s1 h2 s2 id created,
        wrapper w1 a ka s = (Ok h1, s1) /\
        wrapper w2 b kb s1 = (Ok h2, s2) /\
        room_id <$> rooms s1 !! "base" = Some id /\
        room_id <$> rooms s2 !! "base" = Some id /\
        log s2 =
          (log s ++ created ++
           [EvSubmitted "base" id h1; EvSubmitted "base" id h2]) /\
        (forall e, e ∈ created -> e = EvRoomCreated "base" id) /\
        pending "base" s2 = (pending "base" s ++ [h1; h2])) /\
  (forall a ka b kb s,
      exists h2 s1 h1 s2 id created,
        wrapper w2 b kb s = (Ok h2, s1) /\
        wrapper w1 a ka s1 = (Ok h1, s2) /\
        room_id <$> rooms s1 !! "base" = Some id /\
        room_id <$> rooms s2 !! "base" = Some id /\
        log s2 =
          (log s ++ created ++
           [EvSubmitted "base" id h2; EvSubmitted "base" id h1]) /\
        (forall e, e ∈ created -> e = EvRoomCreated "base" id) /\
        pending "base" s2 = (pending "base" s ++ [h2; h1])).
Proof.
  intros H1 H2.
  apply decorates_inv in H1. apply decorates_inv in H2. subst w1 w2.
  split; [reflexivity|]. split; [reflexivity|].
  split; [reflexivity|]. split.
  - intros a ka b kb s.
    apply (same_name_same_room (Wrapped None (VFun f))
             (Wrapped (Some "base") g) a b ka kb s eq_refl).
  - intros a ka b kb s.
    apply (same_name_same_room (Wrapped (Some "base") g)
             (Wrapped None (VFun f)) b a kb ka s eq_refl).
Qed.

Lemma default_room_is_base_witness :
  exists id,
    room_id <$>
      rooms (snd (wrapper (Wrapped None (VFun "double")) [VInt 1] ∅ (boot 2)))
        !! "base" = Some id /\
    room_id <$>
      rooms (snd (wrapper (Wrapped (Some "base") (VFun "fail")) [] ∅
                    (snd (wrapper (Wrapped None (VFun "double")) [VInt 1] ∅
                            (boot 2))))) !! "base" = Some id.
Proof.
  destruct (default_room_is_base "double" (VFun "fail")
              (Wrapped None (VFun "double"))
              (Wrapped (Some "base") (VFun "fail")) (boot 2)
              (decorates_bare "double" (boot 2))
              (decorates_factory (Some "base") (VFun "fail") (boot 2)))
    as (_ & _ & _ & Hseq & _).
  destruct (Hseq [VInt 1] ∅ [] ∅ (boot 2))
    as (h1 & s1 & h2 & s2 & id & created & Hw1 & Hw2 & Hid1 & Hid2 & _).
  exists id. rewrite Hw1. simpl. rewrite Hw2. simpl. split; assumption.
Defined.

(** ** The loop of the thread unit, for an arbitrary [do] *)

Section LoopFacts.
Variable do : ref -> System -> do_outcome * System.

Lemma task_done_calls_emit (u : ThreadUnit) (e : event) (s : System) :
  task_done_calls u (log (emit e s)) =
  task_done_calls u (log s) + (if decide (e = EvTaskDone u) then 1 else 0).
Proof.
  unfold task_done_calls, emit. simpl.
  rewrite filter_app, length_app. f_equal.
  rewrite filter_cons, filter_nil. destruct (decide (e = EvTaskDone u));
    reflexivity.
Qed.

Lemma queue_task_done_log (u : ThreadUnit) (s : System) :
  log (snd (queue_task_done u s)) = (log s ++ [EvTaskDone u]).
Proof.
  unfold queue_task_done. simpl.
  destruct (rooms s !! unit_queue u) as [r|]; [|reflexivity].
  destruct (task_done (queue r)); reflexivity.
Qed.

Lemma queue_task_done_calls (u : ThreadUnit) (s : System) :
  task_done_calls u (log (snd (queue_task_done u s))) =
  S (task_done_calls u (log s)).
Proof.
  rewrite queue_task_done_log. unfold task_done_calls.
  rewrite filter_app, length_app, filter_cons, filter_nil.
  rewrite decide_True by reflexivity. simpl. lia.
Qed.




(** C10. In a pass that dequeued a task, [self.queue.task_done()] is
    called exactly when [task.do()] returned: then the unit has made one
    more call; when [do] raised, the pass ends in the state [do] left, with
    no further call and the queue's counter untouched. *)
Theorem task_done_iff_do_returns (u : ThreadUnit) (s s1 s2 s3 : System)
    (task : ref) (o : do_outcome) (it : iteration) :
  queue_get u s = Some (task, s1) ->
  do task (emit (EvStarted u task) s1) = (o, s2) ->
  loop_body do u s = (it, s3) ->
  (o = DoReturned <->
   task_done_calls u (log s3) = S (task_done_calls u (log s2))) /\
  (forall r, o = DoRaised r -> s3 = s2).
Proof.
  intros Hget Hdo Hbody. unfold loop_body in Hbody. rewrite Hget in Hbody.
  unfold execute in Hbody. rewrite Hdo in Hbody.
  destruct o as [|[e|x]].
  - assert (Hs3 : s3 = snd (queue_task_done u s2)).
    { destruct (queue_task_done u s2) as [[[]|e] s']; simpl;
        inversion Hbody; reflexivity. }
    subst s3. split.
    + split; [intros _; apply queue_task_done_calls | reflexivity].
    + intros r Hr. discriminate Hr.
  - inversion Hbody; subst. split.
    + split; [discriminate | intros H; lia].
    + reflexivity.
  - inversion Hbody; subst. split.
    + split; [discriminate | intros H; lia].
    + reflexivity.
Qed.

End LoopFacts.


(** ** The loop of the thread unit on tasks *)

Section TaskFacts.
Context `{FunEnv}.

Lemma run_task_idem (t : Task) : run_task (run_task t) = run_task t.
Proof.
  unfold run_task.
  destruct (py_call (target t) (args t) (kwargs t)) eqn:Hc; simpl;
    rewrite Hc; reflexivity.
Qed.

Lemma run_task_completed (t : Task) : completed (run_task t) = true.
Proof.
  unfold run_task. destruct (py_call (target t) (args t) (kwargs t));
    reflexivity.
Qed.

Lemma run_task_slot (t : Task) :
  slot (run_task t) = Some (py_call (target t) (args t) (kwargs t)).
Proof.
  unfold run_task. destruct (py_call (target t) (args t) (kwargs t));
    reflexivity.
Qed.

(** [task.do()] on a task never lets anything escape. *)
Lemma Task_do_returns (h : ref) (s : System) : fst (Task_do h s) = DoReturned.
Proof. reflexivity. Qed.

Lemma queue_get_empty (u : ThreadUnit) (s : System) :
  pending (unit_queue u) s = [] -> queue_get u s = None.
Proof.
  unfold pending, queue_get, get.
  destruct (rooms s !! unit_queue u) as [r|]; [|reflexivity].
  intros ->. reflexivity.
Qed.

Lemma queue_get_head (u : ThreadUnit) (s : System) (x : ref)
    (rest : list ref) :
  pending (unit_queue u) s = x :: rest ->
  exists s1,
    queue_get u s = Some (x, s1) /\
    pending (unit_queue u) s1 = rest /\
    (forall m, m <> unit_queue u -> rooms s1 !! m = rooms s !! m) /\
    tasks s1 = tasks s /\
    next_ref s1 = next_ref s /\
    log s1 = (log s ++ [EvGet u x]).
Proof.
  unfold pending, queue_get, get.
  destruct (rooms s !! unit_queue u) as [r|] eqn:Hr; [|discriminate].
  intros ->. eexists. split; [reflexivity|]. simpl.
  rewrite lookup_insert_eq. simpl.
  repeat split; try reflexivity.
  intros m Hm. rewrite lookup_insert_ne by congruence. reflexivity.
Qed.

Lemma queue_task_done_pending (u : ThreadUnit) (s : System) (m : string) :
  pending m (snd (queue_task_done u s)) = pending m s.
Proof.
  unfold queue_task_done, pending. simpl.
  destruct (rooms s !! unit_queue u) as [r|] eqn:Hr; [|reflexivity].
  unfold task_done. destruct (unfinished_tasks (queue r)); simpl;
    [reflexivity|].
  destruct (decide (unit_queue u = m)) as [<-|Hne].
  - rewrite lookup_insert_eq, Hr. reflexivity.
  - rewrite lookup_insert_ne by exact Hne. reflexivity.
Qed.

Lemma queue_task_done_tasks (u : ThreadUnit) (s : System) :
  tasks (snd (queue_task_done u s)) = tasks s /\
  next_ref (snd (queue_task_done u s)) = next_ref s.
Proof.
  unfold queue_task_done. simpl.
  destruct (rooms s !! unit_queue u) as [r|]; [|split; reflexivity].
  destruct (task_done (queue r)); split; reflexivity.
Qed.

(** One pass on a task: it always ends with the loop going on. *)
Lemma execute_task (u : ThreadUnit) (x : ref) (s : System) :
  exists s3,
    execute Task_do u x s = (Continue, s3) /\
    tasks s3 = alter run_task x (tasks s) /\
    (forall m, pending m s3 = pending m s) /\
    next_ref s3 = next_ref s /\
    log s3 = (log s ++ [EvStarted u x; EvTaskDone u]).
Proof.
  unfold execute, Task_do.
  set (s1 := set_tasks (alter run_task x) (emit (EvStarted u x) s)).
  exists (snd (queue_task_done u s1)). split.
  { destruct (queue_task_done u s1) as [[[]|e] s3]; reflexivity. }
  destruct (queue_task_done_tasks u s1) as [Ht Hn].
  split; [rewrite Ht; reflexivity|].
  split; [intros m; rewrite queue_task_done_pending; reflexivity|].
  split; [rewrite Hn; reflexivity|].
  rewrite queue_task_done_log. unfold s1. simpl.
  rewrite <- app_assoc. reflexivity.
Qed.

(** Given more passes than there are pending tasks, the unit runs every
    pending task in place, empties its queue and ends up blocked in [get]. *)
Lemma run_drains (u : ThreadUnit) (pend : list ref) :
  forall (s : System) (fuel : nat),
    pending (unit_queue u) s = pend ->
    length pend < fuel ->
    exists s',
      run Task_do fuel u s = (Waiting, s') /\
      pending (unit_queue u) s' = [] /\
      next_ref s' = next_ref s /\
      forall h,
        tasks s' !! h =
        (if decide (h ∈ pend) then run_task <$> tasks s !! h
         else tasks s !! h).
Proof.
  induction pend as [|x rest IH]; intros s fuel Hp Hf.
  - destruct fuel as [|fuel]; [simpl in Hf; lia|].
    exists s. simpl. unfold loop_body.
    rewrite (queue_get_empty u s Hp).
    split; [reflexivity|]. split; [exact Hp|]. split; [reflexivity|].
    intros h. destruct (decide (h ∈ [])) as [Hin|_]; [|reflexivity].
    inversion Hin.
  - destruct fuel as [|fuel]; [simpl in Hf; lia|]. simpl in Hf.
    destruct (queue_get_head u s x rest Hp)
      as (s1 & Hget & Hp1 & _ & Ht1 & Hn1 & _).
    destruct (execute_task u x s1) as (s3 & Hex & Ht3 & Hp3 & Hn3 & _).
    destruct (IH s3 fuel) as (s' & Hrun & Hp' & Hn' & Ht').
    { rewrite Hp3. exact Hp1. }
    { lia. }
    exists s'. split.
    { simpl. unfold loop_body. rewrite Hget, Hex. exact Hrun. }
    split; [exact Hp'|]. split; [congruence|].
    intros h. rewrite Ht', Ht3, Ht1.
    destruct (decide (h = x)) as [->|Hne].
    + rewrite lookup_alter_eq.
      destruct (decide (x ∈ x :: rest)) as [_|Hnin];
        [|exfalso; apply Hnin; left].
      destruct (decide (x ∈ rest)); [|reflexivity].
      destruct (tasks s !! x); simpl; [|reflexivity].
      rewrite run_task_idem. reflexivity.
    + rewrite lookup_alter_ne by congruence.
      destruct (decide (h ∈ rest)) as [Hin|Hnin];
        destruct (decide (h ∈ x :: rest)) as [Hin'|Hnin']; try reflexivity.
      * exfalso. apply Hnin'. right. exact Hin.
      * apply elem_of_cons in Hin' as [?|?]; tauto.
Qed.

End TaskFacts.

(** ** From the call of a wrapped function to the awaited outcome *)

Section Bridge.
Context `{FunEnv}.

Lemma await_ran (h : ref) (t : Task) (s : System) :
  tasks s !! h = Some (run_task t) ->
  await_result h s = (Ready (py_call (target t) (args t) (kwargs t)), s).
Proof.
  intros Ht. unfold await_result. rewrite Ht.
  rewrite run_task_completed, run_task_slot. reflexivity.
Qed.

(** A call of a wrapped function followed by enough passes of a unit of
    the room: the new task has been run in place, the queue is empty, the
    unit is blocked in [get], and tasks that were not pending are as they
    were. *)
Lemma call_then_run (w : wrapped) (a : list value) (k : gmap string value)
    (s : System) :
  exists s1,
    wrapper w a k s = (Ok (next_ref s), s1) /\
    pending (room_name w) s1 = (pending (room_name w) s ++ [next_ref s]) /\
    forall u fuel,
      unit_queue u = room_name w ->
      length (pending (room_name w) s1) < fuel ->
      exists s2,
        run Task_do fuel u s1 = (Waiting, s2) /\
        pending (room_name w) s2 = [] /\
        next_ref s2 = S (next_ref s) /\
        tasks s2 !! next_ref s = Some (run_task (create (w_func w) a k)) /\
        forall h0, h0 <> next_ref s -> h0 ∉ pending (room_name w) s ->
                   tasks s2 !! h0 = tasks s !! h0.
Proof.
  destruct (wrapper_effect w a k s) as (s1 & Hw & _ & Ht1 & Hn1 & _).
  destruct (wrapper_pending w a k s s1 _ Hw) as [Hp1 _].
  exists s1. split; [exact Hw|]. split; [exact Hp1|].
  intros u fuel Hu Hf.
  destruct (run_drains u (pending (unit_queue u) s1) s1 fuel eq_refl)
    as (s2 & Hrun & Hp2 & Hn2 & Ht2).
  { rewrite Hu. exact Hf. }
  rewrite Hu in Hp2, Ht2. exists s2.
  split; [exact Hrun|]. split; [exact Hp2|]. split; [congruence|]. split.
  - rewrite Ht2, Hp1.
    destruct (decide (next_ref s ∈ pending (room_name w) s ++ [next_ref s]))
      as [_|Hnin].
    + rewrite Ht1, lookup_insert_eq. reflexivity.
    + exfalso. apply Hnin. apply elem_of_app. right. left.
  - intros h0 Hne Hnp. rewrite Ht2, Hp1.
    destruct (decide (h0 ∈ pending (room_name w) s ++ [next_ref s]))
      as [Hin|_].
    + apply elem_of_app in Hin as [Hin|Hin]; [tauto|].
      apply list_elem_of_singleton in Hin. tauto.
    + rewrite Ht1, lookup_insert_ne by congruence. reflexivity.
Qed.

(** C1. When calling [func] directly on the arguments returns [v], the
    call of the shoot-wrapped function returns a task at once, and once a
    unit of the room has made more passes than tasks were pending, the
    unit is blocked in [get] again and awaiting the task yields [v]. *)
Theorem awaiting_yields_direct_result (room : option string) (func : value)
    (a : list value) (k : gmap string value) (v : value) (w : wrapped)
    (s : System) :
  py_call func a k = Returns v ->
  decorates room func w s ->
  exists h s1,
    wrapper w a k s = (Ok h, s1) /\
    forall u fuel,
      unit_queue u = room_name w ->
      unit_of_room u s1 ->
      length (pending (room_name w) s1) < fuel ->
      exists s2,
        run Task_do fuel u s1 = (Waiting, s2) /\
        fst (await_result h s2) = Ready (Returns v).
Proof.
  intros Hcall Hdec. apply decorates_inv in Hdec. subst w.
  destruct (call_then_run (Wrapped room func) a k s) as (s1 & Hw & _ & Hrun).
  exists (next_ref s), s1. split; [exact Hw|].
  intros u fuel Hu _ Hf.
  destruct (Hrun u fuel Hu Hf) as (s2 & Hr & _ & _ & Ht & _).
  exists s2. split; [exact Hr|].
  rewrite (await_ran _ _ _ Ht). simpl. rewrite Hcall. reflexivity.
Qed.

(** C4. When [func] raises the error [e], the error is captured by the
    task: [task.do()] returns on the unit, a unit of the room gets through
    all pending tasks and is blocked in [get] again, alive, and awaiting the
    task raises [e] in the caller. A task submitted afterwards to the same
    room is run by the same unit, and both outcomes can then be read. *)
Theorem failure_reraised_unit_survives (room : option string) (func : value)
    (a : list value) (k : gmap string value) (e : error) (w : wrapped)
    (s : System) :
  py_call func a k = Raises e ->
  decorates room func w s ->
  exists h s1,
    wrapper w a k s = (Ok h, s1) /\
    (forall s', fst (Task_do h s') = DoReturned) /\
    forall u fuel,
      unit_queue u = room_name w ->
      unit_of_room u s1 ->
      length (pending (room_name w) s1) < fuel ->
      exists s2,
        run Task_do fuel u s1 = (Waiting, s2) /\
        fst (await_result h s2) = Ready (Raises e) /\
        forall g b kb v' fuel',
          py_call g b kb = Returns v' ->
          1 < fuel' ->
          exists h' s3 s4,
            wrapper (Wrapped room g) b kb s2 = (Ok h', s3) /\
            run Task_do fuel' u s3 = (Waiting, s4) /\
            fst (await_result h' s4) = Ready (Returns v') /\
            fst (await_result h s4) = Ready (Raises e).
Proof.
  intros Hcall Hdec. apply decorates_inv in Hdec. subst w.
  destruct (call_then_run (Wrapped room func) a k s) as (s1 & Hw & _ & Hrun).
  exists (next_ref s), s1. split; [exact Hw|].
  split; [intros s'; reflexivity|].
  intros u fuel Hu _ Hf.
  destruct (Hrun u fuel Hu Hf) as (s2 & Hr & Hp2 & Hn2 & Ht & _).
  exists s2. split; [exact Hr|]. split.
  { rewrite (await_ran _ _ _ Ht). simpl. rewrite Hcall. reflexivity. }
  intros g b kb v' fuel' Hg Hfuel'.
  destruct (call_then_run (Wrapped room g) b kb s2)
    as (s3 & Hw3 & Hp3 & Hrun3).
  change (room_name (Wrapped room g)) with (room_name (Wrapped room func))
    in Hp3, Hrun3.
  rewrite Hp2 in Hp3.
  destruct (Hrun3 u fuel' Hu) as (s4 & Hr4 & _ & _ & Ht4 & Hold).
  { rewrite Hp3. simpl. lia. }
  exists (next_ref s2), s3, s4. split; [exact Hw3|]. split; [exact Hr4|].
  split.
  { rewrite (await_ran _ _ _ Ht4). simpl. rewrite Hg. reflexivity. }
  assert (Hh : tasks s4 !! next_ref s = tasks s2 !! next_ref s).
  { apply Hold; [rewrite Hn2; lia|]. rewrite Hp2. intros Hin. inversion Hin. }
  rewrite Ht in Hh. rewrite (await_ran _ _ _ Hh). simpl. rewrite Hcall.
  reflexivity.
Qed.

End Bridge.

(** ** Callers and units interleaved *)

Section Interleaving.
Context `{FunEnv}.

Lemma queue_get_inv (u : ThreadUnit) (s s1 : System) (x : ref) :
  queue_get u s = Some (x, s1) ->
  pending (unit_queue u) s = x :: pending (unit_queue u) s1 /\
  (forall m, m <> unit_queue u -> pending m s1 = pending m s) /\
  tasks s1 = tasks s /\
  next_ref s1 = next_ref s /\
  log s1 = log s ++ [EvGet u x].
Proof.
  intros Hg.
  destruct (pending (unit_queue u) s) as [|y rest] eqn:Hp.
  - rewrite (queue_get_empty u s Hp) in Hg. discriminate.
  - destruct (queue_get_head u s y rest Hp)
      as (s1' & Hg' & Hp1 & Hother & Ht & Hn & Hl).
    rewrite Hg' in Hg. inversion Hg; subst.
    split; [reflexivity|]. split; [|auto].
    intros m Hm. unfold pending. rewrite (Hother m Hm). reflexivity.
Qed.

(** What a step does to the task objects: nothing, or one new task at a
    fresh reference, or one task run in place. *)
Lemma step_tasks (c : config) (a : action) :
  (tasks (sys (step c a)) = tasks (sys c) /\
   next_ref (sys (step c a)) = next_ref (sys c)) \/
  (exists f args k,
      tasks (sys (step c a)) =
        <[next_ref (sys c) := create f args k]> (tasks (sys c)) /\
      next_ref (sys (step c a)) = S (next_ref (sys c))) \/
  (exists x,
      tasks (sys (step c a)) = alter run_task x (tasks (sys c)) /\
      next_ref (sys (step c a)) = next_ref (sys c)).
Proof.
  destruct a as [w a k|u|u]; simpl.
  - right. left.
    destruct (wrapper_effect w a k (sys c)) as (s1 & Hw & _ & Ht & Hn & _).
    rewrite Hw. simpl. eauto.
  - left. destruct (units c u); try (split; reflexivity).
    destruct (queue_get u (sys c)) as [[x s1]|] eqn:Hg;
      [|split; reflexivity].
    apply queue_get_inv in Hg as (_ & _ & Ht & Hn & _). simpl. auto.
  - destruct (units c u) as [|task|]; try (left; split; reflexivity).
    right. right. exists task.
    destruct (execute_task u task (sys c)) as (s3 & He & Ht & _ & Hn & _).
    rewrite He. simpl. auto.
Qed.

Lemma sound_boot (size : nat) : sound (boot size).
Proof.
  intros h t Ht. change (tasks (boot size)) with (∅ : gmap ref Task) in Ht.
  rewrite lookup_empty in Ht. discriminate.
Qed.

Lemma run_task_same_call (t : Task) :
  target (run_task t) = target t /\
  args (run_task t) = args t /\
  kwargs (run_task t) = kwargs t.
Proof.
  unfold run_task. destruct (py_call (target t) (args t) (kwargs t));
    repeat split; reflexivity.
Qed.

Lemma sound_step (c : config) (a : action) :
  sound (sys c) -> sound (sys (step c a)).
Proof.
  intros Hs h t Ht.
  destruct (step_tasks c a)
    as [[Hts Hn] | [(f & args & k & Hts & Hn) | (x & Hts & Hn)]];
    rewrite Hts in Ht; rewrite Hn.
  - apply Hs. exact Ht.
  - destruct (decide (h = next_ref (sys c))) as [->|Hne].
    + rewrite lookup_insert_eq in Ht. inversion Ht; subst.
      split; [lia|]. simpl. discriminate.
    + rewrite lookup_insert_ne in Ht by congruence.
      destruct (Hs h t Ht) as [Hlt Hc]. split; [lia|exact Hc].
  - destruct (decide (h = x)) as [->|Hne].
    + rewrite lookup_alter_eq in Ht.
      apply fmap_Some in Ht as (t0 & Ht0 & ->).
      split; [apply (Hs x t0 Ht0)|]. intros _.
      destruct (run_task_same_call t0) as (-> & -> & ->).
      apply run_task_slot.
    + rewrite lookup_alter_ne in Ht by congruence. apply Hs. exact Ht.
Qed.

Lemma sound_exec (sched : list action) (c : config) :
  sound (sys c) -> sound (sys (exec c sched)).
Proof.
  revert c. induction sched as [|a sched IH]; intros c Hs; [exact Hs|].
  simpl. apply IH. apply sound_step. exact Hs.
Qed.

(** A completed task keeps its outcome through every step. *)
Lemma completed_step (c : config) (a : action) (h : ref) (t : Task) :
  sound (sys c) ->
  tasks (sys c) !! h = Some t ->
  completed t = true ->
  exists t',
    tasks (sys (step c a)) !! h = Some t' /\
    completed t' = true /\
    slot t' = slot t.
Proof.
  intros Hs Ht Hc. destruct (Hs h t Ht) as [Hlt Hslot].
  destruct (step_tasks c a)
    as [[Hts _] | [(f & args & k & Hts & _) | (x & Hts & _)]];
    rewrite Hts.
  - exists t. auto.
  - exists t. rewrite lookup_insert_ne by lia. auto.
  - destruct (decide (h = x)) as [->|Hne].
    + exists (run_task t). rewrite lookup_alter_eq, Ht. simpl.
      split; [reflexivity|]. split; [apply run_task_completed|].
      rewrite run_task_slot. symmetry. apply Hslot. exact Hc.
    + exists t. rewrite lookup_alter_ne by congruence. auto.
Qed.

Lemma completed_exec (sched : list action) (c : config) (h : ref) (t : Task) :
  sound (sys c) ->
  tasks (sys c) !! h = Some t ->
  completed t = true ->
  exists t',
    tasks (sys (exec c sched)) !! h = Some t' /\
    completed t' = true /\
    slot t' = slot t.
Proof.
  revert c t. induction sched as [|a sched IH]; intros c t Hs Ht Hc.
  - exists t. auto.
  - destruct (completed_step c a h t Hs Ht Hc) as (t1 & Ht1 & Hc1 & Hs1).
    destruct (IH (step c a) t1 (sound_step c a Hs) Ht1 Hc1)
      as (t' & Ht' & Hc' & Hs').
    exists t'. simpl. split; [exact Ht'|]. split; [exact Hc'|]. congruence.
Qed.

End Interleaving.

(** C8. Reading the outcome of a completed task any number of times
    gives the same answer each time and leaves the state alone; and in a
    running process the answer is the stored result or failure, which stays
    the same whatever callers and units do between the reads. *)
Theorem reading_is_idempotent `{FunEnv} :
  (forall h s,
      is_completed h s ->
      exists r, forall n, await_times n h s = (repeat r n, s)) /\
  (forall size sched sched' h,
      is_completed h (sys (exec (start size) sched)) ->
      exists o,
        forall n,
          fst (await_times n h (sys (exec (start size) sched))) =
            repeat (Ready o) n /\
          fst (await_times n h (sys (exec (exec (start size) sched) sched'))) =
            repeat (Ready o) n).
Proof.
  assert (Hpure : forall h s, snd (await_result h s) = s).
  { intros h s. unfold await_result. destruct (tasks s !! h) as [t|];
      [|reflexivity].
    destruct (completed t); [|reflexivity].
    destruct (slot t); reflexivity. }
  assert (Htimes : forall n h s,
             await_times n h s = (repeat (fst (await_result h s)) n, s)).
  { induction n as [|n IH]; intros h s; [reflexivity|].
    simpl. destruct (await_result h s) as [r s1] eqn:Hr.
    pose proof (Hpure h s) as Hp. rewrite Hr in Hp. simpl in Hp. subst s1.
    rewrite IH, Hr. reflexivity. }
  assert (Hready : forall h s t o,
             tasks s !! h = Some t -> completed t = true -> slot t = Some o ->
             fst (await_result h s) = Ready o).
  { intros h s t o Ht Hc Hs. unfold await_result. rewrite Ht, Hc, Hs.
    reflexivity. }
  split.
  - intros h s _. exists (fst (await_result h s)). intros n. apply Htimes.
  - intros size sched sched' h (t & Ht & Hc).
    set (c := exec (start size) sched) in *.
    assert (Hsound : sound (sys c)).
    { apply sound_exec. apply sound_boot. }
    destruct (Hsound h t Ht) as [_ Hslot]. specialize (Hslot Hc).
    exists (py_call (target t) (args t) (kwargs t)). intros n.
    rewrite !Htimes. simpl. split.
    + rewrite (Hready h (sys c) t _ Ht Hc Hslot). reflexivity.
    + destruct (completed_exec sched' c h t Hsound Ht Hc)
        as (t' & Ht' & Hc' & Hs').
      rewrite Hslot in Hs'.
      rewrite (Hready h _ t' _ Ht' Hc' Hs'). reflexivity.
Qed.

(** ** Start order on a queue with a single worker *)

Section StartOrder.
Context `{FunEnv}.

Lemma submitted_app (n : string) (l1 l2 : list event) :
  submitted n (l1 ++ l2) = submitted n l1 ++ submitted n l2.
Proof. apply omap_app. Qed.

Lemma started_app (n : string) (l1 l2 : list event) :
  started n (l1 ++ l2) = started n l1 ++ started n l2.
Proof. apply omap_app. Qed.

Lemma set_unit_same (u : ThreadUnit) (st : unit_state)
    (f : ThreadUnit -> unit_state) :
  set_unit u st f u = st.
Proof. unfold set_unit. rewrite decide_True by reflexivity. reflexivity. Qed.

Lemma set_unit_other (u u' : ThreadUnit) (st : unit_state)
    (f : ThreadUnit -> unit_state) :
  u <> u' -> set_unit u' st f u = f u.
Proof. intros Hne. unfold set_unit. rewrite decide_False by exact Hne. reflexivity. Qed.

Lemma in_order_start (u : ThreadUnit) (size : nat) : in_order u (start size).
Proof.
  unfold in_order, start, pending. simpl. rewrite lookup_empty.
  split; [reflexivity|]. split; [|constructor].
  intros t Ht. inversion Ht.
Qed.

Lemma in_order_call (u : ThreadUnit) (c : config) (w : wrapped)
    (a : list value) (k : gmap string value) :
  in_order u c -> in_order u (step c (Call w a k)).
Proof.
  intros (Hsplit & Hlt & Hnd). unfold in_order. simpl.
  destruct (wrapper_effect w a k (sys c))
    as (s1 & Hw & _ & _ & Hn & _ & Hlog & _).
  destruct (wrapper_pending w a k (sys c) s1 _ Hw) as [Hpn Hpo].
  rewrite Hw. simpl. rewrite Hlog, Hn.
  rewrite !submitted_app, !started_app.
  assert (Hcr : forall n,
             submitted n
               match rooms (sys c) !! room_name w with
               | Some _ => []
               | None => [EvRoomCreated (room_name w) (next_room (sys c))]
               end = [] /\
             started n
               match rooms (sys c) !! room_name w with
               | Some _ => []
               | None => [EvRoomCreated (room_name w) (next_room (sys c))]
               end = []).
  { intros n. destruct (rooms (sys c) !! room_name w); split; reflexivity. }
  destruct (Hcr (unit_queue u)) as [-> ->]. simpl.
  rewrite app_nil_r.
  destruct (decide (room_name w = unit_queue u)) as [Heq|Hne].
  - rewrite <- Heq in *. rewrite Hpn. split.
    { rewrite Hsplit, <- !app_assoc. reflexivity. }
    split.
    + intros t Ht. apply elem_of_app in Ht as [Ht|Ht].
      * specialize (Hlt t Ht). lia.
      * apply list_elem_of_singleton in Ht. lia.
    + apply NoDup_app. split; [exact Hnd|].
      split; [|apply NoDup_singleton].
      intros t Ht Ht'. apply list_elem_of_singleton in Ht'. subst t.
      specialize (Hlt _ Ht). lia.
  - rewrite (Hpo (unit_queue u)) by congruence. rewrite app_nil_r.
    split; [exact Hsplit|]. split; [|exact Hnd].
    intros t Ht. specialize (Hlt t Ht). lia.
Qed.

Lemma in_order_get (u u' : ThreadUnit) (c : config) :
  serves_alone u (Get u') -> in_order u c -> in_order u (step c (Get u')).
Proof.
  intros Halone (Hsplit & Hlt & Hnd). simpl.
  destruct (units c u') eqn:Hst; try (split; [|split]; assumption).
  destruct (queue_get u' (sys c)) as [[x s1]|] eqn:Hg;
    [|split; [|split]; assumption].
  apply queue_get_inv in Hg as (Hp & Hpo & _ & Hn & Hlog).
  unfold in_order. simpl. rewrite Hlog, Hn.
  rewrite submitted_app, started_app. simpl. rewrite !app_nil_r.
  split; [|split; assumption].
  destruct (decide (u' = u)) as [->|Hne].
  - rewrite set_unit_same. rewrite Hsplit, Hst, Hp. reflexivity.
  - rewrite set_unit_other by congruence.
    rewrite (Hpo (unit_queue u)); [exact Hsplit|].
    intros Heq. apply Hne. apply Halone. congruence.
Qed.

Lemma in_order_exec (u u' : ThreadUnit) (c : config) :
  serves_alone u (Exec u') -> in_order u c -> in_order u (step c (Exec u')).
Proof.
  intros Halone (Hsplit & Hlt & Hnd). simpl.
  destruct (units c u') as [|task|] eqn:Hst; try (split; [|split]; assumption).
  destruct (execute_task u' task (sys c)) as (s3 & He & _ & Hp & Hn & Hlog).
  rewrite He. unfold in_order. simpl. rewrite Hlog, Hn, Hp.
  rewrite submitted_app, started_app. simpl. rewrite !app_nil_r.
  split; [|split; assumption].
  destruct (decide (u' = u)) as [->|Hne].
  - rewrite set_unit_same. rewrite decide_True by reflexivity.
    rewrite Hsplit, Hst. simpl. rewrite <- app_assoc. reflexivity.
  - rewrite set_unit_other by congruence.
    rewrite decide_False; [rewrite app_nil_r; exact Hsplit|].
    intros Heq. apply Hne. apply Halone. exact Heq.
Qed.

Lemma in_order_exec_all (u : ThreadUnit) (sched : list action) (c : config) :
  only_worker u sched -> in_order u c -> in_order u (exec c sched).
Proof.
  revert c. induction sched as [|a sched IH]; intros c Hall Hin; [exact Hin|].
  inversion Hall as [|a' sched' Ha Hrest]; subst. simpl. apply IH; [exact Hrest|].
  destruct a as [w a k|u'|u'].
  - apply in_order_call. exact Hin.
  - apply in_order_get; assumption.
  - apply in_order_exec; assumption.
Qed.

Lemma precedes_in_prefix (t1 t2 : ref) (p q : list ref) :
  NoDup (p ++ q) -> precedes t1 t2 (p ++ q) -> t2 ∈ p -> precedes t1 t2 p.
Proof.
  intros Hnd (l1 & l2 & l3 & Heq) Hin.
  assert (Heq' : p ++ q = (l1 ++ t1 :: l2) ++ t2 :: l3).
  { rewrite Heq, <- app_assoc. reflexivity. }
  rewrite Heq' in Hnd. apply NoDup_app in Hnd as (_ & Hdisj & _).
  apply app_eq_app in Heq' as [l [[Hp Hq] | [Hp Hq]]].
  - destruct l as [|y l].
    + exfalso. rewrite app_nil_r in Hp. subst p.
      apply (Hdisj t2 Hin). left.
    + simpl in Hq. inversion Hq; subst.
      exists l1, l2, l. rewrite <- app_assoc. reflexivity.
  - exfalso. apply (Hdisj t2); [|left].
    rewrite Hp. apply elem_of_app. left. exact Hin.
Qed.

End StartOrder.

(** C6. On a queue served by a single unit, tasks begin in the order in
    which they were submitted: in every run of a fresh process in which
    only [u] works on its queue, if [t1] was submitted to that room before
    [t2] and [t2] has begun, then [t1] began before [t2]. *)
Theorem single_worker_starts_in_fifo_order `{FunEnv} (size : nat)
    (sched : list action) (u : ThreadUnit) (t1 t2 : ref) :
  only_worker u sched ->
  precedes t1 t2
    (submitted (unit_queue u) (log (sys (exec (start size) sched)))) ->
  t2 ∈ started (unit_queue u) (log (sys (exec (start size) sched))) ->
  precedes t1 t2
    (started (unit_queue u) (log (sys (exec (start size) sched)))).
Proof.
  intros Honly Hsub Hst.
  destruct (in_order_exec_all u sched (start size) Honly
              (in_order_start u size)) as (Hsplit & _ & Hnd).
  rewrite Hsplit in Hsub, Hnd.
  apply (precedes_in_prefix t1 t2 _ _ Hnd Hsub Hst).
Qed.

(** With a second unit on the same queue the guarantee is lost: a unit
    can take its task later and still begin it earlier. *)
Example two_workers_can_overtake :
  let l := log (sys (exec (H := Demo.env) (start 2) Demo.overtaking)) in
  submitted "base" l = [0; 1] /\ started "base" l = [1; 0].
Proof. vm_compute. split; reflexivity. Qed.

(** ** The registry of rooms, for calls that take turns *)

Section Registry.
Context `{FunEnv}.

Lemma created_app (n : string) (l1 l2 : list event) :
  created n (l1 ++ l2) = created n l1 ++ created n l2.
Proof. apply omap_app. Qed.

Lemma queue_get_registered (u : ThreadUnit) (s s1 : System) (x : ref)
    (n : string) :
  queue_get u s = Some (x, s1) -> registered n s1 = registered n s.
Proof.
  unfold queue_get, registered.
  destruct (rooms s !! unit_queue u) as [r|] eqn:Hr; [|discriminate].
  destruct (get (queue r)) as [[task q]|]; [|discriminate].
  intros Hg. inversion Hg; subst. simpl.
  destruct (decide (unit_queue u = n)) as [<-|Hne].
  - rewrite lookup_insert_eq, Hr. reflexivity.
  - rewrite lookup_insert_ne by exact Hne. reflexivity.
Qed.

Lemma queue_task_done_registered (u : ThreadUnit) (s : System) (n : string) :
  registered n (snd (queue_task_done u s)) = registered n s.
Proof.
  unfold queue_task_done, registered. simpl.
  destruct (rooms s !! unit_queue u) as [r|] eqn:Hr; [|reflexivity].
  destruct (task_done (queue r)); [|reflexivity]. simpl.
  destruct (decide (unit_queue u = n)) as [<-|Hne].
  - rewrite lookup_insert_eq, Hr. reflexivity.
  - rewrite lookup_insert_ne by exact Hne. reflexivity.
Qed.

Lemma execute_task_registered (u : ThreadUnit) (x : ref) (s : System)
    (n : string) :
  registered n (snd (execute Task_do u x s)) = registered n s.
Proof.
  unfold execute, Task_do.
  set (s1 := set_tasks (alter run_task x) (emit (EvStarted u x) s)).
  change (registered n s) with (registered n s1).
  rewrite <- (queue_task_done_registered u s1 n).
  destruct (queue_task_done u s1) as [[[]|e] s3]; reflexivity.
Qed.

Lemma one_room_step (n : string) (c : config) (a : action) :
  one_room n c ->
  one_room n (step c a) /\
  (forall id, registered n (sys c) = Some id ->
              registered n (sys (step c a)) = Some id).
Proof.
  unfold one_room. intros Hone. destruct a as [w a k|u|u]; simpl.
  - destruct (wrapper_effect w a k (sys c))
      as (s1 & Hw & Hrooms & _ & _ & _ & Hlog & _).
    rewrite Hw. simpl. rewrite Hlog, !created_app, Hone.
    unfold registered. rewrite Hrooms. unfold resolved.
    destruct (decide (room_name w = n)) as [<-|Hne].
    + rewrite lookup_insert_eq. simpl.
      destruct (rooms (sys c) !! room_name w) as [r0|]; simpl.
      * split; [reflexivity|]. intros id Hid. exact Hid.
      * rewrite decide_True by reflexivity.
        split; [reflexivity|]. intros id Hid. discriminate.
    + rewrite lookup_insert_ne by exact Hne.
      assert (Hcr : created n
                match rooms (sys c) !! room_name w with
                | Some _ => []
                | None => [EvRoomCreated (room_name w) (next_room (sys c))]
                end = []).
      { destruct (rooms (sys c) !! room_name w); [reflexivity|].
        simpl. rewrite decide_False by exact Hne. reflexivity. }
      rewrite Hcr. simpl. rewrite app_nil_r. split; [reflexivity|auto].
  - destruct (units c u); try (split; [exact Hone|auto]).
    destruct (queue_get u (sys c)) as [[x s1]|] eqn:Hg;
      [|split; [exact Hone|auto]].
    simpl. rewrite (queue_get_registered u (sys c) s1 x n Hg).
    apply queue_get_inv in Hg as (_ & _ & _ & _ & Hlog).
    rewrite Hlog, created_app, Hone. simpl. rewrite app_nil_r.
    split; [reflexivity|auto].
  - destruct (units c u) as [|task|]; try (split; [exact Hone|auto]).
    pose proof (execute_task_registered u task (sys c) n) as Hreg.
    destruct (execute_task u task (sys c)) as (s3 & He & _ & _ & _ & Hlog).
    rewrite He in *. simpl in *. rewrite Hreg, Hlog, created_app, Hone.
    simpl. rewrite app_nil_r. split; [reflexivity|auto].
Qed.

(** A name that has been created keeps resolving to the same room, and
    no second room is ever created for it. *)
Lemma registered_room_is_kept (n : string) (size : nat)
    (sched sched' : list action) (id : nat) :
  registered n (sys (exec (start size) sched)) = Some id ->
  registered n (sys (exec (exec (start size) sched) sched')) = Some id /\
  created n (log (sys (exec (exec (start size) sched) sched'))) = [id].
Proof.
  assert (Hall : forall l c, one_room n c ->
             one_room n (exec c l) /\
             (forall i, registered n (sys c) = Some i ->
                        registered n (sys (exec c l)) = Some i)).
  { induction l as [|a l IH]; intros c Hc; [split; auto|].
    destruct (one_room_step n c a Hc) as [Hc' Hk].
    destruct (IH (step c a) Hc') as [Hc'' Hk'].
    split; [exact Hc''|]. intros i Hi. apply Hk'. apply Hk. exact Hi. }
  intros Hreg.
  assert (H0 : one_room n (start size)) by reflexivity.
  destruct (Hall sched (start size) H0) as [H1 _].
  destruct (Hall sched' _ H1) as [H2 Hkeep].
  specialize (Hkeep id Hreg). split; [exact Hkeep|].
  unfold one_room in H2. rewrite Hkeep in H2. exact H2.
Qed.

End Registry.

(** ** The theorems at work on the small client program *)

Lemma single_worker_starts_in_fifo_order_witness :
  precedes 0 1
    (started "base"
       (log (sys (exec (H := Demo.env) (start 1) Demo.two_calls)))).
Proof.
  apply (single_worker_starts_in_fifo_order (H := Demo.env) 1 Demo.two_calls
           Demo.worker0 0 1).
  - repeat constructor; intros _; reflexivity.
  - exists [], [], []. vm_compute. reflexivity.
  - vm_compute. right. left.
Defined.

Lemma awaiting_yields_direct_result_witness :
  fst (await_result 0
         (snd (run (Task_do (H := Demo.env)) 2 Demo.worker0
                 (snd (wrapper Demo.double [VInt 21] ∅ (boot 1)))))) =
  Ready (Returns (VInt 42)).
Proof.
  destruct (awaiting_yields_direct_result (H := Demo.env) None
              (VFun "double") [VInt 21] ∅ (VInt 42) Demo.double (boot 1)
              eq_refl (decorates_bare "double" (boot 1)))
    as (h & s1 & Hw & Hrun).
  unfold Demo.double in *. rewrite Hw. cbn [snd].
  assert (Hh : h = 0) by (vm_compute in Hw; congruence). subst h.
  destruct (Hrun Demo.worker0 2 eq_refl) as (s2 & Hr & Ha).
  - vm_compute in Hw. inversion Hw; subst s1.
    eexists. split; [vm_compute; reflexivity|]. simpl. lia.
  - vm_compute in Hw. inversion Hw; subst s1. vm_compute. lia.
  - rewrite Hr. exact Ha.
Defined.

Lemma failure_reraised_unit_survives_witness :
  fst (await_result 0
         (snd (run (Task_do (H := Demo.env)) 2 Demo.worker0
                 Demo.one_pending))) =
  Ready (Raises Demo.boom).
Proof.
  destruct (failure_reraised_unit_survives (H := Demo.env) None
              (VFun "fail") [] ∅ Demo.boom Demo.fail (boot 1)
              eq_refl (decorates_bare "fail" (boot 1)))
    as (h & s1 & Hw & _ & Hrun).
  unfold Demo.one_pending, Demo.fail in *. rewrite Hw. cbn [snd].
  assert (Hh : h = 0) by (vm_compute in Hw; congruence). subst h.
  destruct (Hrun Demo.worker0 2 eq_refl) as (s2 & Hr & Ha & _).
  - vm_compute in Hw. inversion Hw; subst s1.
    eexists. split; [vm_compute; reflexivity|]. simpl. lia.
  - vm_compute in Hw. inversion Hw; subst s1. vm_compute. lia.
  - rewrite Hr. exact Ha.
Defined.


Lemma task_done_iff_do_returns_witness :
  task_done_calls Demo.worker0
    (log (snd (loop_body (Task_do (H := Demo.env)) Demo.worker0
                 Demo.one_pending))) =
  S (task_done_calls Demo.worker0
       (log (snd (Task_do (H := Demo.env) 0
                    (emit (EvStarted Demo.worker0 0) Demo.one_taken))))).
Proof.
  apply (task_done_iff_do_returns (Task_do (H := Demo.env)) Demo.worker0
           Demo.one_pending Demo.one_taken
           (snd (Task_do (H := Demo.env) 0
                   (emit (EvStarted Demo.worker0 0) Demo.one_taken)))
           (snd (loop_body (Task_do (H := Demo.env)) Demo.worker0
                   Demo.one_pending))
           0 DoReturned
           (fst (loop_body (Task_do (H := Demo.env)) Demo.worker0
                   Demo.one_pending))).
  - vm_compute. reflexivity.
  - reflexivity.
  - apply surjective_pairing.
  - reflexivity.
Defined.

Lemma reading_is_idempotent_witness :
  exists o,
    fst (await_times 3 0
           (sys (exec (H := Demo.env) (start 1) Demo.two_calls))) =
    [Ready o; Ready o; Ready o].
Proof.
  destruct (proj2 (reading_is_idempotent (H := Demo.env)) 1 Demo.two_calls
              [] 0) as [o Ho].
  - eexists. split; vm_compute; reflexivity.
  - exists o. apply (Ho 3).
Defined.

(** * Further properties of the code *)

Import Facts.

(** ** Decoration *)

Lemma misuse_iff (args : list value) :
  misuse args <-> args <> [] /\ single_callable args = false.
Proof.
  split.
  - intros [Hlen | (v & -> & Hv)].
    + destruct args as [|a0 [|a1 rest]]; simpl in Hlen; try lia.
      split; [discriminate|reflexivity].
    + split; [discriminate|exact Hv].
  - intros [Hne Hsc]. destruct args as [|a0 [|a1 rest]].
    + congruence.
    + right. exists a0. split; [reflexivity|exact Hsc].
    + left. simpl. lia.
Qed.

Lemma dispatch_single_callable {S W R : Type} (apply : W -> value -> M S R)
    (args : list value) (wow : W) (s : S) :
  single_callable args = true ->
  dispatch apply args wow s =
  (r <- apply wow (item args 0) ;; ret (AsDecorator r)) s.
Proof.
  destruct args as [|a0 [|a1 rest]]; simpl; try discriminate.
  intros Hc. unfold dispatch, item. simpl. rewrite Hc. reflexivity.
Qed.

(** X1. [end_of_wrappers] applies the wrapper once when the arguments are
    exactly one callable and not at all otherwise; counting the
    applications changes neither what it returns or raises nor the state it
    leaves. *)
Theorem end_of_wrappers_applies_at_most_once {S W R : Type}
    (apply : W -> value -> M S R) (args : list value) (wrapper : W) (s : S)
    (n : nat) :
  snd (snd (end_of_wrappers (counted apply) args wrapper (s, n))) =
    n + (if single_callable args then 1 else 0) /\
  fst (snd (end_of_wrappers (counted apply) args wrapper (s, n))) =
    snd (end_of_wrappers apply args wrapper s) /\
  fst (end_of_wrappers (counted apply) args wrapper (s, n)) =
    fst (end_of_wrappers apply args wrapper s).
Proof.
  destruct (single_callable args) eqn:Hsc.
  - change (@end_of_wrappers (S * nat) W R) with (@dispatch (S * nat) W R).
    change (@end_of_wrappers S W R) with (@dispatch S W R).
    rewrite !dispatch_single_callable by exact Hsc.
    unfold bind, ret, counted. simpl.
    destruct (apply wrapper (item args 0) s) as [[r|e] s']; simpl;
      repeat split; lia.
  - destruct args as [|a0 [|a1 rest]].
    + simpl. repeat split; lia.
    + simpl in Hsc. unfold end_of_wrappers, item. simpl. rewrite Hsc.
      simpl. repeat split; lia.
    + simpl. repeat split; lia.
Qed.

(** X2. Decorating is free of effects: whatever the arguments, [shoot] leaves
    the process state as it is (rooms come into being at the first call,
    not at decoration), and it raises exactly when the positional arguments
    are a misuse, and then nothing but
    [IncorrectUseOfTheDecoratorError]. *)
Theorem shoot_only_decorates (args : list value) (room : option string)
    (s : System) :
  snd (shoot args room s) = s /\
  ((exists e, fst (shoot args room s) = Raise e) <-> misuse args) /\
  (forall e, fst (shoot args room s) = Raise e ->
             e = IncorrectUseOfTheDecoratorError misuse_message).
Proof.
  destruct (single_callable args) eqn:Hsc.
  - unfold shoot. rewrite dispatch_single_callable by exact Hsc.
    unfold bind, wrapper_of_wrapper, ret. simpl.
    split; [reflexivity|]. split.
    + split.
      * intros [e He]. discriminate He.
      * intros Hm. apply misuse_iff in Hm as [_ Hm]. congruence.
    + intros e He. discriminate He.
  - destruct args as [|a0 rest].
    + simpl. split; [reflexivity|]. split.
      * split.
        -- intros [e He]. discriminate He.
        -- intros Hm. apply misuse_iff in Hm as [Hm _]. congruence.
      * intros e He. discriminate He.
    + assert (Hm : misuse (a0 :: rest)).
      { apply misuse_iff. split; [discriminate|exact Hsc]. }
      unfold shoot. rewrite dispatch_misuse by exact Hm.
      simpl. split; [reflexivity|]. split.
      * split; [intros _; exact Hm | intros _; eexists; reflexivity].
      * intros e He. congruence.
Qed.

(** X3. For a callable, decorating directly and decorating through the
    factory come to the same wrapped function, for every room. *)
Theorem direct_and_factory_decoration_agree (func : value)
    (room : option string) (s : System) :
  callable func = true ->
  shoot [func] room s = decorate_via_factory room func s /\
  shoot [func] room s = (Ok (AsDecorator (Wrapped room func)), s).
Proof.
  intros Hc. unfold decorate_via_factory, shoot.
  rewrite dispatch_single_callable by exact Hc.
  unfold bind, wrapper_of_wrapper, ret, item. simpl.
  split; reflexivity.
Qed.

(** X4. The callable test guards the direct form only: a value that is not
    callable is refused by [shoot(v)] but accepted by the factory form,
    which wraps it without looking at it. *)
Theorem factory_form_skips_callable_test (v : value) (room : option string)
    (s : System) :
  callable v = false ->
  shoot [v] room s =
    (Raise (IncorrectUseOfTheDecoratorError misuse_message), s) /\
  decorate_via_factory room v s = (Ok (AsDecorator (Wrapped room v)), s).
Proof.
  intros Hc. split.
  - unfold shoot. apply dispatch_misuse. right. exists v. auto.
  - reflexivity.
Qed.

(** X5. A call of a wrapped function touches one room only, the one its room
    name designates: an explicit name is taken as it is (the empty string
    is a name like any other, only [None] stands for ["base"]), the new
    task goes to the tail of that room's queue, and every other room keeps
    its identity and its pending tasks. *)
Theorem call_touches_only_its_room (room : option string) (func : value)
    (a : list value) (k : gmap string value) (s : System) :
  room_name (Wrapped room func) = default "base" room /\
  exists h s1,
    wrapper (Wrapped room func) a k s = (Ok h, s1) /\
    pending (default "base" room) s1 = pending (default "base" room) s ++ [h] /\
    forall m, m <> default "base" room ->
              pending m s1 = pending m s /\ registered m s1 = registered m s.
Proof.
  assert (Hn : room_name (Wrapped room func) = default "base" room).
  { destruct room; reflexivity. }
  split; [exact Hn|].
  destruct (wrapper_effect (Wrapped room func) a k s)
    as (s1 & Hw & Hrooms & _).
  destruct (wrapper_pending _ a k s s1 _ Hw) as [Hp Hother].
  rewrite Hn in Hp, Hother, Hrooms.
  exists (next_ref s), s1. split; [exact Hw|]. split; [exact Hp|].
  intros m Hm. split; [apply Hother; exact Hm|].
  unfold registered. rewrite Hrooms, lookup_insert_ne by congruence.
  reflexivity.
Qed.

(** ** The thread unit, for an arbitrary [do] *)

Lemma task_done_calls_snoc (u : ThreadUnit) (l : list event) (e : event) :
  task_done_calls u (l ++ [e]) =
  task_done_calls u l + (if decide (e = EvTaskDone u) then 1 else 0).
Proof.
  unfold task_done_calls.
  rewrite filter_app, length_app. f_equal.
  rewrite filter_cons, filter_nil. destruct (decide (e = EvTaskDone u));
    reflexivity.
Qed.

Section UnitFacts.
Variable do : ref -> System -> do_outcome * System.

Lemma execute_not_blocked (u : ThreadUnit) (task : ref) (s : System) :
  fst (execute do u task s) <> Blocked.
Proof.
  unfold execute.
  destruct (do task (emit (EvStarted u task) s)) as [[|[e|x]] s1];
    try (simpl; discriminate).
  destruct (queue_task_done u s1) as [[[]|e] s2]; simpl; discriminate.
Qed.

(** X6. A unit whose queue is empty does nothing: the pass stays in [get]
    exactly when nothing is pending, [do] is not called, the state is not
    touched, and [run] waits there whatever the number of passes. *)
Theorem idle_unit_waits (u : ThreadUnit) (s : System) :
  (fst (loop_body do u s) = Blocked <-> pending (unit_queue u) s = []) /\
  (pending (unit_queue u) s = [] ->
   loop_body do u s = (Blocked, s) /\
   forall fuel, run do (S fuel) u s = (Waiting, s)).
Proof.
  assert (Hidle : pending (unit_queue u) s = [] ->
                  loop_body do u s = (Blocked, s)).
  { intros Hp. unfold loop_body. rewrite (queue_get_empty u s Hp).
    reflexivity. }
  split.
  - split.
    + intros Hb. destruct (pending (unit_queue u) s) as [|x rest] eqn:Hp;
        [reflexivity|].
      destruct (queue_get_head u s x rest Hp) as (s1 & Hg & _).
      unfold loop_body in Hb. rewrite Hg in Hb.
      exfalso. exact (execute_not_blocked u x s1 Hb).
    + intros Hp. rewrite (Hidle Hp). reflexivity.
  - intros Hp. split; [exact (Hidle Hp)|].
    intros fuel. simpl. rewrite (Hidle Hp). reflexivity.
Qed.

(** X7. An exception that is not an [Exception] is not caught: the unit
    leaves its loop for good, without a call of [task_done], and what was
    pending behind the task stays in the queue. *)
Theorem exit_signal_ends_the_loop (u : ThreadUnit) (s s1 s2 : System)
    (task : ref) (x : exit_signal) :
  quiet do ->
  queue_get u s = Some (task, s1) ->
  do task (emit (EvStarted u task) s1) = (DoRaised (Exit x), s2) ->
  (forall fuel, run do (S fuel) u s = (Died x, s2)) /\
  pending (unit_queue u) s = task :: pending (unit_queue u) s2 /\
  task_done_calls u (log s2) = task_done_calls u (log s).
Proof.
  intros Hq Hg Hd.
  assert (Hbody : loop_body do u s = (Killed x, s2)).
  { unfold loop_body, execute. rewrite Hg, Hd. reflexivity. }
  split; [intros fuel; simpl; rewrite Hbody; reflexivity|].
  destruct (Hq task (emit (EvStarted u task) s1)) as [Hr Hl].
  rewrite Hd in Hr, Hl. cbn [snd] in Hr, Hl.
  apply queue_get_inv in Hg as (Hp & _ & _ & _ & Hlog).
  split.
  - rewrite Hp. unfold pending. rewrite Hr. reflexivity.
  - rewrite Hl, task_done_calls_emit, Hlog, task_done_calls_snoc.
    rewrite !decide_False by discriminate. lia.
Qed.

End UnitFacts.

Lemma queue_get_rooms (u : ThreadUnit) (s s1 : System) (task : ref)
    (r : Room) :
  rooms s !! unit_queue u = Some r ->
  queue_get u s = Some (task, s1) ->
  items (queue r) = task :: tail (items (queue r)) /\
  rooms s1 =
    <[unit_queue u :=
        mkRoom (room_id r)
          (mkQueue (tail (items (queue r))) (unfinished_tasks (queue r)))
          (workers r)]> (rooms s).
Proof.
  intros Hr. unfold queue_get, get. rewrite Hr.
  destruct (items (queue r)) as [|x rest]; [discriminate|].
  intros Hg. inversion Hg; subst. simpl. split; reflexivity.
Qed.

Lemma queue_task_done_rooms (u : ThreadUnit) (s : System) (r : Room) :
  rooms s !! unit_queue u = Some r ->
  rooms (snd (queue_task_done u s)) =
    <[unit_queue u :=
        mkRoom (room_id r)
          (mkQueue (items (queue r)) (Nat.pred (unfinished_tasks (queue r))))
          (workers r)]> (rooms s).
Proof.
  intros Hr. unfold queue_task_done, task_done. simpl. rewrite Hr.
  destruct r as [id [its c] w]. simpl.
  destruct c as [|c]; simpl; [|reflexivity].
  symmetry. apply insert_id. exact Hr.
Qed.

Section UnitAccounting.
Variable do : ref -> System -> do_outcome * System.

(** X8. What a pass does to the rooms when [do] keeps to its task: the head
    of the unit's own queue is gone; the counter behind [task_done] is one
    lower when [do] returned (and stays at zero when it was zero, the
    [ValueError] of the queue being swallowed like any other error) and is
    unchanged when [do] raised; no other room is touched. *)
Theorem pass_accounts_for_one_task (u : ThreadUnit) (s s1 s2 : System)
    (task : ref) (o : do_outcome) (r : Room) :
  quiet do ->
  rooms s !! unit_queue u = Some r ->
  queue_get u s = Some (task, s1) ->
  do task (emit (EvStarted u task) s1) = (o, s2) ->
  rooms (snd (loop_body do u s)) =
    <[unit_queue u :=
        mkRoom (room_id r)
          (mkQueue (tail (items (queue r)))
             match o with
             | DoReturned => Nat.pred (unfinished_tasks (queue r))
             | DoRaised _ => unfinished_tasks (queue r)
             end)
          (workers r)]> (rooms s).
Proof.
  intros Hq Hr Hg Hd.
  destruct (queue_get_rooms u s s1 task r Hr Hg) as [_ Hr1].
  destruct (Hq task (emit (EvStarted u task) s1)) as [Hr2 _].
  rewrite Hd in Hr2. cbn [snd] in Hr2.
  change (rooms (emit (EvStarted u task) s1)) with (rooms s1) in Hr2.
  unfold loop_body, execute. rewrite Hg, Hd.
  destruct o as [|[e|x]]; cbn [snd]; try (rewrite Hr2; exact Hr1).
  assert (Hs2 : rooms s2 !! unit_queue u =
                Some (mkRoom (room_id r)
                        (mkQueue (tail (items (queue r)))
                           (unfinished_tasks (queue r)))
                        (workers r))).
  { rewrite Hr2, Hr1, lookup_insert_eq. reflexivity. }
  pose proof (queue_task_done_rooms u s2 _ Hs2) as Hdone.
  simpl in Hdone. rewrite Hr2, Hr1, insert_insert_eq in Hdone.
  destruct (queue_task_done u s2) as [[[]|e] s3]; exact Hdone.
Qed.

Lemma pass_of_quiet_do (u : ThreadUnit) (s : System) (x : ref)
    (rest : list ref) :
  quiet do ->
  survivable do ->
  pending (unit_queue u) s = x :: rest ->
  exists s',
    loop_body do u s = (Continue, s') /\
    pending (unit_queue u) s' = rest /\
    started (unit_queue u) (log s') = started (unit_queue u) (log s) ++ [x] /\
    task_done_calls u (log s') <= S (task_done_calls u (log s)).
Proof.
  intros Hq Hsv Hp.
  destruct (queue_get_head u s x rest Hp)
    as (s1 & Hg & Hp1 & _ & _ & _ & Hlog1).
  destruct (do x (emit (EvStarted u x) s1)) as [o s2] eqn:Hd.
  destruct (Hq x (emit (EvStarted u x) s1)) as [Hr2 Hl2].
  rewrite Hd in Hr2, Hl2. cbn [snd] in Hr2, Hl2.
  change (rooms (emit (EvStarted u x) s1)) with (rooms s1) in Hr2.
  change (log (emit (EvStarted u x) s1)) with (log s1 ++ [EvStarted u x])
    in Hl2.
  assert (Hp2 : pending (unit_queue u) s2 = rest).
  { rewrite <- Hp1. unfold pending. rewrite Hr2. reflexivity. }
  assert (Hst2 : started (unit_queue u) (log s2) =
                 started (unit_queue u) (log s) ++ [x]).
  { rewrite Hl2, Hlog1, !started_app. simpl.
    rewrite decide_True by reflexivity. rewrite app_nil_r. reflexivity. }
  assert (Htd2 : task_done_calls u (log s2) = task_done_calls u (log s)).
  { rewrite Hl2, Hlog1, !task_done_calls_snoc.
    rewrite !decide_False by discriminate. lia. }
  unfold loop_body, execute. rewrite Hg, Hd.
  destruct o as [|[e|y]].
  - exists (snd (queue_task_done u s2)).
    split; [destruct (queue_task_done u s2) as [[[]|e] s3]; reflexivity|].
    split; [rewrite queue_task_done_pending; exact Hp2|].
    rewrite queue_task_done_log. split.
    + rewrite started_app, Hst2. simpl. rewrite app_nil_r. reflexivity.
    + rewrite task_done_calls_snoc, Htd2.
      rewrite decide_True by reflexivity. lia.
  - exists s2. split; [reflexivity|]. split; [exact Hp2|].
    split; [exact Hst2|]. lia.
  - exfalso. apply (Hsv x (emit (EvStarted u x) s1) y). rewrite Hd.
    reflexivity.
Qed.

(** X9. Whether its tasks return or raise errors, a unit that is given more
    passes than tasks are pending begins every pending task once, in queue
    order, calls [task_done] at most once per task, empties the queue and
    ends up blocked in [get]. *)
Theorem unit_drains_in_queue_order (u : ThreadUnit) (pend : list ref)
    (s : System) (fuel : nat) :
  quiet do ->
  survivable do ->
  pending (unit_queue u) s = pend ->
  length pend < fuel ->
  exists s',
    run do fuel u s = (Waiting, s') /\
    pending (unit_queue u) s' = [] /\
    started (unit_queue u) (log s') = started (unit_queue u) (log s) ++ pend /\
    task_done_calls u (log s') <= task_done_calls u (log s) + length pend.
Proof.
  intros Hq Hsv. revert s fuel.
  induction pend as [|x rest IH]; intros s fuel Hp Hf.
  - destruct fuel as [|fuel]; [simpl in Hf; lia|].
    exists s. simpl. unfold loop_body. rewrite (queue_get_empty u s Hp).
    split; [reflexivity|]. split; [exact Hp|].
    split; [rewrite app_nil_r; reflexivity|]. simpl. lia.
  - destruct fuel as [|fuel]; [simpl in Hf; lia|]. simpl in Hf.
    destruct (pass_of_quiet_do u s x rest Hq Hsv Hp)
      as (s1 & Hb & Hp1 & Hst1 & Htd1).
    destruct (IH s1 fuel Hp1) as (s' & Hrun & Hp' & Hst' & Htd'); [lia|].
    exists s'. split; [simpl; rewrite Hb; exact Hrun|].
    split; [exact Hp'|]. split.
    + rewrite Hst', Hst1, <- app_assoc. reflexivity.
    + simpl. lia.
Qed.

End UnitAccounting.

(** ** The process unit *)

Lemma proc_pass_empty (u : ProcUnit.ProcessUnit) (w : ProcUnit.World) :
  pending (ProcUnit.proc_queue u) (fst w) = [] ->
  ProcUnit.loop_body u w = (Continue, w).
Proof.
  destruct w as [s out]. unfold pending. simpl. intros Hp.
  unfold ProcUnit.loop_body, ProcUnit.queue_get_nowait, ProcUnit.get_nowait.
  simpl. destruct (rooms s !! ProcUnit.proc_queue u) as [r|]; [|reflexivity].
  rewrite Hp. reflexivity.
Qed.

Lemma proc_pass_head (u : ProcUnit.ProcessUnit) (s : System)
    (out : list ref) (x : ref) (rest : list ref) :
  pending (ProcUnit.proc_queue u) s = x :: rest ->
  exists s1,
    ProcUnit.loop_body u (s, out) = (Continue, (s1, out ++ [x])) /\
    pending (ProcUnit.proc_queue u) s1 = rest /\
    tasks s1 = tasks s /\
    unfinished (ProcUnit.proc_queue u) s1 =
      unfinished (ProcUnit.proc_queue u) s /\
    log s1 = log s.
Proof.
  unfold pending, unfinished.
  unfold ProcUnit.loop_body, ProcUnit.queue_get_nowait, ProcUnit.get_nowait.
  simpl. destruct (rooms s !! ProcUnit.proc_queue u) as [r|] eqn:Hr;
    [|discriminate].
  intros ->. eexists. split; [reflexivity|]. simpl.
  rewrite lookup_insert_eq. simpl. repeat split; reflexivity.
Qed.

Lemma proc_run_empty (u : ProcUnit.ProcessUnit) (w : ProcUnit.World)
    (fuel : nat) :
  pending (ProcUnit.proc_queue u) (fst w) = [] ->
  ProcUnit.run fuel u w = (Looping, w).
Proof.
  intros Hp. induction fuel as [|fuel IH]; [reflexivity|].
  simpl. rewrite (proc_pass_empty u w Hp). exact IH.
Qed.

(** X10. The process unit never waits and never stops: [get_nowait] does not
    block and the [Empty] it raises is swallowed, so every pass is followed
    by another one; on an empty queue the passes change nothing at all. *)
Theorem process_unit_spins (u : ProcUnit.ProcessUnit) :
  (forall fuel w, fst (ProcUnit.run fuel u w) = Looping) /\
  (forall w, pending (ProcUnit.proc_queue u) (fst w) = [] ->
             forall fuel, ProcUnit.run fuel u w = (Looping, w)).
Proof.
  split.
  - induction fuel as [|fuel IH]; intros w; [reflexivity|].
    simpl. unfold ProcUnit.loop_body.
    destruct (ProcUnit.queue_get_nowait u (fst w)) as [[x|e] s1]; apply IH.
  - intros w Hp fuel. apply proc_run_empty. exact Hp.
Qed.

(** X11. The process unit takes the pending tasks off its queue in queue order
    and prints them, and that is all: no task is run (the task objects are
    as they were, so none gets completed), [task_done] is not called (the
    counter of the queue is as it was) and nothing is logged. *)
Theorem process_unit_prints_and_drops (u : ProcUnit.ProcessUnit)
    (pend : list ref) (s : System) (out : list ref) (fuel : nat) :
  pending (ProcUnit.proc_queue u) s = pend ->
  length pend <= fuel ->
  exists s',
    ProcUnit.run fuel u (s, out) = (Looping, (s', out ++ pend)) /\
    pending (ProcUnit.proc_queue u) s' = [] /\
    tasks s' = tasks s /\
    unfinished (ProcUnit.proc_queue u) s' =
      unfinished (ProcUnit.proc_queue u) s /\
    log s' = log s.
Proof.
  revert s out fuel. induction pend as [|x rest IH]; intros s out fuel Hp Hf.
  - exists s. rewrite app_nil_r.
    split; [apply (proc_run_empty u (s, out) fuel Hp)|].
    repeat split; try reflexivity. exact Hp.
  - destruct fuel as [|fuel]; [simpl in Hf; lia|]. simpl in Hf.
    destruct (proc_pass_head u s out x rest Hp)
      as (s1 & Hb & Hp1 & Ht1 & Hu1 & Hl1).
    destruct (IH s1 (out ++ [x]) fuel Hp1) as (s' & Hr & Hp' & Ht' & Hu' & Hl');
      [lia|].
    exists s'. split.
    { simpl. rewrite Hb, Hr, <- app_assoc. reflexivity. }
    split; [exact Hp'|]. repeat split; congruence.
Qed.

(** ** The counter behind [task_done] on a queue with a single worker *)

Section Balance.
Context `{FunEnv}.

Lemma unfinished_resolved (n : string) (s : System) :
  unfinished_tasks (queue (resolved n s)) = unfinished n s.
Proof.
  unfold resolved, unfinished. destruct (rooms s !! n); reflexivity.
Qed.

Lemma wrapper_unfinished (w : wrapped) (a : list value)
    (k : gmap string value) (s s1 : System) (h : ref) (n : string) :
  wrapper w a k s = (Ok h, s1) ->
  unfinished n s1 =
  if decide (n = room_name w) then S (unfinished n s) else unfinished n s.
Proof.
  intros Hw. destruct (wrapper_effect w a k s) as (s1' & He & Hrooms & _).
  rewrite He in Hw. inversion Hw; subst.
  unfold unfinished at 1. rewrite Hrooms.
  destruct (decide (n = room_name w)) as [->|Hne].
  - rewrite lookup_insert_eq. simpl. rewrite unfinished_resolved.
    reflexivity.
  - rewrite lookup_insert_ne by congruence. reflexivity.
Qed.

Lemma queue_get_unfinished (u : ThreadUnit) (s s1 : System) (x : ref)
    (n : string) :
  queue_get u s = Some (x, s1) -> unfinished n s1 = unfinished n s.
Proof.
  intros Hg. unfold unfinished.
  destruct (rooms s !! unit_queue u) as [r|] eqn:Hr.
  - destruct (queue_get_rooms u s s1 x r Hr Hg) as [_ Hr1]. rewrite Hr1.
    destruct (decide (unit_queue u = n)) as [<-|Hne].
    + rewrite lookup_insert_eq, Hr. reflexivity.
    + rewrite lookup_insert_ne by exact Hne. reflexivity.
  - unfold queue_get in Hg. rewrite Hr in Hg. discriminate.
Qed.

Lemma execute_task_unfinished (u : ThreadUnit) (x : ref) (s : System)
    (n : string) :
  unfinished n (snd (execute Task_do u x s)) =
  if decide (n = unit_queue u) then Nat.pred (unfinished n s)
  else unfinished n s.
Proof.
  unfold execute, Task_do.
  set (s1 := set_tasks (alter run_task x) (emit (EvStarted u x) s)).
  assert (Hs : snd (match queue_task_done u s1 with
                    | (Ok _, s2) => (Continue, s2)
                    | (Raise _, s2) => (Continue, s2)
                    end) = snd (queue_task_done u s1)).
  { destruct (queue_task_done u s1) as [[[]|e] s3]; reflexivity. }
  rewrite Hs. unfold unfinished.
  change (rooms s) with (rooms s1).
  destruct (rooms s1 !! unit_queue u) as [r|] eqn:Hr.
  - rewrite (queue_task_done_rooms u s1 r Hr).
    destruct (decide (n = unit_queue u)) as [->|Hne].
    + rewrite lookup_insert_eq, Hr. reflexivity.
    + rewrite lookup_insert_ne by congruence. reflexivity.
  - unfold queue_task_done. simpl.
    change (rooms s) with (rooms s1). rewrite Hr. simpl.
    destruct (decide (n = unit_queue u)) as [->|Hne]; [|reflexivity].
    change (rooms s) with (rooms s1). rewrite Hr. reflexivity.
Qed.

Lemma balanced_step (u : ThreadUnit) (c : config) (a : action) :
  serves_alone u a -> balanced u c -> balanced u (step c a).
Proof.
  unfold balanced. intros Halone Hb. destruct a as [w a k|u'|u']; simpl.
  - destruct (wrapper_effect w a k (sys c)) as (s1 & Hw & _).
    destruct (wrapper_pending w a k (sys c) s1 _ Hw) as [Hpn Hpo].
    rewrite Hw. simpl.
    rewrite (wrapper_unfinished w a k (sys c) s1 _ (unit_queue u) Hw).
    destruct (decide (unit_queue u = room_name w)) as [Heq|Hne].
    + rewrite Heq in *. rewrite Hpn, length_app. simpl. lia.
    + rewrite (Hpo (unit_queue u)) by exact Hne. exact Hb.
  - destruct (units c u') eqn:Hst; try exact Hb.
    destruct (queue_get u' (sys c)) as [[x s1]|] eqn:Hg; [|exact Hb].
    simpl. rewrite (queue_get_unfinished u' (sys c) s1 x _ Hg).
    apply queue_get_inv in Hg as (Hp & Hpo & _).
    destruct (decide (u' = u)) as [->|Hne].
    + rewrite set_unit_same. rewrite Hst, Hp in Hb. simpl in *. lia.
    + rewrite set_unit_other by congruence.
      rewrite (Hpo (unit_queue u)); [exact Hb|].
      intros Heq. apply Hne. apply Halone. congruence.
  - destruct (units c u') as [|task|] eqn:Hst; try exact Hb.
    pose proof (execute_task_unfinished u' task (sys c) (unit_queue u)) as Hu.
    destruct (execute_task u' task (sys c)) as (s3 & He & _ & Hp & _).
    rewrite He in *. simpl in *. rewrite Hu, Hp.
    destruct (decide (u' = u)) as [->|Hne].
    + rewrite set_unit_same. rewrite decide_True by reflexivity.
      rewrite Hst in Hb. simpl in *. lia.
    + rewrite set_unit_other by congruence.
      rewrite decide_False; [exact Hb|].
      intros Heq. apply Hne. apply Halone. congruence.
Qed.

(** X12. On a queue with a single worker the counter behind [task_done] keeps
    track of the work that is left: in every run of a fresh process it
    equals the number of pending tasks plus the one the unit holds, so it
    is back at zero whenever the unit stands at [get] with nothing
    pending. *)
Theorem single_worker_counter_is_balanced (size : nat) (sched : list action)
    (u : ThreadUnit) :
  only_worker u sched ->
  balanced u (exec (start size) sched) /\
  (units (exec (start size) sched) u = AtGet ->
   pending (unit_queue u) (sys (exec (start size) sched)) = [] ->
   unfinished (unit_queue u) (sys (exec (start size) sched)) = 0).
Proof.
  intros Honly.
  assert (Hall : forall l c, only_worker u l -> balanced u c ->
                             balanced u (exec c l)).
  { induction l as [|a l IH]; intros c Hl Hc; [exact Hc|].
    inversion Hl as [|a' l' Ha Hrest]; subst. simpl.
    apply IH; [exact Hrest|]. apply balanced_step; assumption. }
  assert (Hb : balanced u (exec (start size) sched)).
  { apply Hall; [exact Honly|]. reflexivity. }
  split; [exact Hb|].
  intros Hst Hp. unfold balanced in Hb. rewrite Hst, Hp in Hb. exact Hb.
Qed.

End Balance.

(** ** The further properties at work on the small client program *)

Lemma direct_and_factory_decoration_agree_witness :
  shoot [VFun "double"] (Some "io") (boot 1) =
  decorate_via_factory (Some "io") (VFun "double") (boot 1).
Proof.
  apply (proj1 (direct_and_factory_decoration_agree (VFun "double")
                  (Some "io") (boot 1) eq_refl)).
Defined.

Lemma factory_form_skips_callable_test_witness :
  decorate_via_factory None (VInt 5) (boot 1) =
  (Ok (AsDecorator (Wrapped None (VInt 5))), boot 1).
Proof.
  apply (proj2 (factory_form_skips_callable_test (VInt 5) None (boot 1)
                  eq_refl)).
Defined.

Lemma call_touches_only_its_room_witness :
  exists h s1,
    wrapper (Wrapped (Some "") (VFun "double")) [VInt 1] ∅ Demo.one_pending =
      (Ok h, s1) /\
    pending "base" s1 = pending "base" Demo.one_pending.
Proof.
  destruct (call_touches_only_its_room (Some "") (VFun "double") [VInt 1] ∅
              Demo.one_pending) as (_ & h & s1 & Hw & _ & Hother).
  exists h, s1. split; [exact Hw|].
  apply (Hother "base"). simpl. discriminate.
Defined.

Lemma idle_unit_waits_witness :
  run Demo.faulty_do 3 Demo.worker0 (boot 1) = (Waiting, boot 1).
Proof.
  apply (proj2 (idle_unit_waits Demo.faulty_do Demo.worker0 (boot 1))
           eq_refl).
Defined.

Lemma exit_signal_ends_the_loop_witness :
  run Samples.exiting_do 5 Demo.worker0 Samples.two_pending =
  (Died SystemExit,
   emit (EvStarted Demo.worker0 0)
     (match queue_get Demo.worker0 Samples.two_pending with
      | Some (_, s1) => s1
      | None => Samples.two_pending
      end)).
Proof.
  apply (proj1 (exit_signal_ends_the_loop Samples.exiting_do Demo.worker0
                  Samples.two_pending
                  (match queue_get Demo.worker0 Samples.two_pending with
                   | Some (_, s1) => s1
                   | None => Samples.two_pending
                   end)
                  _ 0 SystemExit
                  (fun t s => conj eq_refl eq_refl)
                  ltac:(vm_compute; reflexivity) eq_refl)).
Defined.

Lemma pass_accounts_for_one_task_witness :
  unfinished "base"
    (snd (loop_body (Task_do (H := Demo.env)) Demo.worker0
            Samples.two_pending)) = 1.
Proof.
  pose proof (pass_accounts_for_one_task (Task_do (H := Demo.env))
                Demo.worker0 Samples.two_pending
                (match queue_get Demo.worker0 Samples.two_pending with
                 | Some (_, s1) => s1
                 | None => Samples.two_pending
                 end)
                _ 0 DoReturned
                (mkRoom 0 (mkQueue [0; 1] 2) 1)
                (fun t s => conj eq_refl eq_refl)
                ltac:(vm_compute; reflexivity)
                ltac:(vm_compute; reflexivity) eq_refl) as Hrooms.
  unfold unfinished. rewrite Hrooms.
  change (unit_queue Demo.worker0) with "base".
  rewrite lookup_insert_eq. reflexivity.
Defined.

Lemma unit_drains_in_queue_order_witness :
  exists s',
    run Demo.faulty_do 3 Demo.worker0 Samples.two_pending = (Waiting, s') /\
    started "base" (log s') = [0; 1].
Proof.
  destruct (unit_drains_in_queue_order Demo.faulty_do Demo.worker0 [0; 1]
              Samples.two_pending 3
              (fun t s => conj eq_refl eq_refl)
              ltac:(intros t s x; simpl; discriminate)
              ltac:(vm_compute; reflexivity)
              ltac:(simpl; lia))
    as (s' & Hrun & _ & Hst & _).
  exists s'. split; [exact Hrun|]. exact Hst.
Defined.

Lemma process_unit_spins_witness :
  ProcUnit.run 4 Samples.proc0 (boot 1, []) = (Looping, (boot 1, [])).
Proof.
  apply (proj2 (process_unit_spins Samples.proc0) (boot 1, []) eq_refl 4).
Defined.

Lemma process_unit_prints_and_drops_witness :
  exists s',
    ProcUnit.run 2 Samples.proc0 (Samples.two_pending, []) =
      (Looping, (s', [0; 1])) /\
    tasks s' = tasks Samples.two_pending.
Proof.
  destruct (process_unit_prints_and_drops Samples.proc0 [0; 1]
              Samples.two_pending [] 2
              ltac:(vm_compute; reflexivity) ltac:(simpl; lia))
    as (s' & Hrun & _ & Ht & _).
  exists s'. split; [exact Hrun|exact Ht].
Defined.

Lemma single_worker_counter_is_balanced_witness :
  unfinished "base" (sys (exec (H := Demo.env) (start 1) Demo.two_calls)) = 0.
Proof.
  apply (proj2 (single_worker_counter_is_balanced (H := Demo.env) 1
                  Demo.two_calls Demo.worker0
                  ltac:(repeat constructor; intros _; reflexivity))).
  - vm_compute. reflexivity.
  - vm_compute. reflexivity.
Defined.
